(** * PDF outline extractor: a shallow embedding of [pdf_outline_extractor.py]

    The development follows the Python module function by function.  The
    PyMuPDF document is the input: a title from the metadata and, per page,
    blocks of lines of spans.  Python's built-in operations that the module
    relies on ([str.strip], [re.match], [max], [sorted], [set], float
    arithmetic) are modelled in the first part; the methods of
    [PDFOutlineExtractor] follow, and the properties come last. *)

From Stdlib Require Import List ZArith Lia Bool Ascii String PeanoNat DecimalString.
From Stdlib Require Import Permutation Sorted.
From Stdlib Require Import Floats.
Import ListNotations.

Set Warnings "-inexact-float".

(* ================================================================= *)
(** * Part I: Python values and built-ins *)

(* ----------------------------------------------------------------- *)
(** ** Numbers

    Font sizes are Python floats (IEEE 754 binary64); the integer literals
    [0] and [12] the module mixes with them compare and compute by numeric
    value, so one type of binary64 values models both.  The operations are
    the ones of the Standard Library's executable specification of
    binary64. *)

Definition number : Type := spec_float.

(** A literal, read as the nearest binary64 value. *)
Definition num (x : PrimFloat.float) : number := Prim2SF x.

Definition is_nan (x : number) : bool :=
  match x with S754_nan => true | _ => false end.

Definition py_mul (x y : number) : number := SF64mul x y.
Definition py_add (x y : number) : number := SF64add x y.
Definition py_div (x y : number) : number := SF64div x y.

(** [x < y], [x <= y], [x == y] on numbers; [x > y] is [py_lt y x] and
    [x >= y] is [py_le y x]. *)
Definition py_lt (x y : number) : bool := SFltb x y.
Definition py_le (x y : number) : bool := SFleb x y.
Definition py_eq (x y : number) : bool := SFeqb x y.
Definition py_gt (x y : number) : bool := py_lt y x.
Definition py_ge (x y : number) : bool := py_le y x.

(** [max(a, b)]: the first argument is kept unless the second is strictly
    greater. *)
Definition py_max (a b : number) : number := if py_gt b a then b else a.

(** [float(n)] for a non-negative integer, correctly rounded. *)
Definition number_of_nat (n : nat) : number :=
  binary_normalize prec emax (Z.of_nat n) 0 false.

(** [sum(xs)]: the fold from the integer 0, left to right. *)
Definition py_sum (xs : list number) : number :=
  fold_left py_add xs (num 0).

(** [max(items, key=key)] over a non-empty iteration: the first item is
    kept until an item with a strictly greater key comes. *)
Fixpoint max_by_from {A : Type} (key : A -> nat) (best : A) (items : list A) : A :=
  match items with
  | [] => best
  | x :: rest =>
      if key best <? key x then max_by_from key x rest
      else max_by_from key best rest
  end.

(** [xs.count(x)] on a list of numbers. *)
Definition py_count (xs : list number) (x : number) : nat :=
  List.length (filter (fun y => py_eq y x) xs).

(* ----------------------------------------------------------------- *)
(** ** Strings

    A [str] is its sequence of code points; the model covers the code
    points below 256 (ASCII and the Latin-1 supplement), one [ascii] each. *)

Definition str : Type := list ascii.

(** A string literal. *)
Definition py (s : string) : str := list_ascii_of_string s.

Definition code (c : ascii) : nat := nat_of_ascii c.

Definition in_range (lo hi n : nat) : bool := (lo <=? n) && (n <=? hi).

(** [c.isspace()], which is also what [strip()] removes and what [\s]
    matches: TAB..CR, FS..US, space, NEL and NBSP. *)
Definition isspace (c : ascii) : bool :=
  let n := code c in
  in_range 9 13 n || in_range 28 32 n || (n =? 133) || (n =? 160).

(** What [\d] matches: the decimal digits. *)
Definition isdecimal (c : ascii) : bool := in_range 48 57 (code c).

(** [c.lower()] and [c.upper()] where the result stays below 256. *)
Definition lower_char (c : ascii) : ascii :=
  let n := code c in
  if in_range 65 90 n || (in_range 192 222 n && negb (n =? 215))
  then ascii_of_nat (n + 32) else c.

Definition upper_char (c : ascii) : ascii :=
  let n := code c in
  if in_range 97 122 n || (in_range 224 254 n && negb (n =? 247))
  then ascii_of_nat (n - 32) else c.

Definition py_lower (s : str) : str := map lower_char s.

Fixpoint lstrip (s : str) : str :=
  match s with
  | c :: rest => if isspace c then lstrip rest else s
  | [] => []
  end.

Definition rstrip (s : str) : str := rev (lstrip (rev s)).

(** [s.strip()] *)
Definition strip (s : str) : str := rstrip (lstrip s).

Definition str_eqb (a b : str) : bool :=
  if list_eq_dec ascii_dec a b then true else false.

Fixpoint startswith (s prefix : str) : bool :=
  match prefix, s with
  | [], _ => true
  | p :: prefix', c :: s' => Ascii.eqb p c && startswith s' prefix'
  | _ :: _, [] => false
  end.

(** [s.endswith(suffix)] *)
Definition endswith (s suffix : str) : bool := startswith (rev s) (rev suffix).

(** [sub in s] *)
Fixpoint contains (s sub : str) : bool :=
  startswith s sub ||
  match s with
  | [] => false
  | _ :: rest => contains rest sub
  end.

(** [f"H{n}"] *)
Definition level_name (n : nat) : str :=
  py "H" ++ list_ascii_of_string (NilEmpty.string_of_uint (Nat.to_uint n)).

(* ----------------------------------------------------------------- *)
(** ** Regular expressions

    The patterns of the module use literals, [.], [\d], [\s], bracket sets,
    grouping, alternation and the quantifiers [*], [+], [?].  Every pattern
    starts with [^], which [re.match] already implies, and [$] occurs only
    as the last item; a pattern is therefore a body and a flag for the
    final [$].  [re.match] only reports whether some match exists, so that
    a matcher by derivatives decides it. *)

Inductive set_item : Type :=
  | ItemChar (c : ascii)            (* a character of a set *)
  | ItemRange (lo hi : ascii)       (* lo-hi *)
  | ItemDigit                       (* \d *)
  | ItemSpace.                      (* \s *)

Inductive regex : Type :=
  | Eps                             (* the empty pattern *)
  | Lit (c : ascii)                 (* a literal character *)
  | Dot                             (* . : any character but a newline *)
  | Digit                           (* \d *)
  | Space                           (* \s *)
  | OneOf (items : list set_item)   (* [...] *)
  | Cat (r1 r2 : regex)
  | Alt (r1 r2 : regex)             (* r1|r2 *)
  | Star (r : regex)                (* r* *)
  | Plus (r : regex)                (* r+ *)
  | Opt (r : regex)                 (* r? *)
  | Fail_.                          (* matches nothing; only derivatives build it *)

(** [source] keeps the pattern as the module writes it. *)
Record pattern : Type := Pattern { source : string; body : regex; dollar : bool }.

Definition newline : ascii := ascii_of_nat 10.

Definition item_has (it : set_item) (c : ascii) : bool :=
  match it with
  | ItemChar c0 => Ascii.eqb c0 c
  | ItemRange lo hi => in_range (code lo) (code hi) (code c)
  | ItemDigit => isdecimal c
  | ItemSpace => isspace c
  end.

(** With [re.IGNORECASE] a character also matches through its lower-case or
    its upper-case form. *)
Definition item_matches (ignorecase : bool) (it : set_item) (c : ascii) : bool :=
  item_has it c ||
  (ignorecase && (item_has it (lower_char c) || item_has it (upper_char c))).

(** Whether a one-character pattern accepts [c]. *)
Definition accepts (ignorecase : bool) (r : regex) (c : ascii) : bool :=
  match r with
  | Lit c0 => item_matches ignorecase (ItemChar c0) c
  | Dot => negb (Ascii.eqb c newline)
  | Digit => isdecimal c
  | Space => isspace c
  | OneOf items => existsb (fun it => item_matches ignorecase it c) items
  | _ => false
  end.

Fixpoint nullable (r : regex) : bool :=
  match r with
  | Eps => true
  | Cat r1 r2 => nullable r1 && nullable r2
  | Alt r1 r2 => nullable r1 || nullable r2
  | Star _ => true
  | Plus r1 => nullable r1
  | Opt _ => true
  | _ => false
  end.

(** The derivative: what remains to be matched after reading [c]. *)
Fixpoint deriv (ignorecase : bool) (c : ascii) (r : regex) : regex :=
  match r with
  | Eps | Fail_ => Fail_
  | Lit _ | Dot | Digit | Space | OneOf _ =>
      if accepts ignorecase r c then Eps else Fail_
  | Cat r1 r2 =>
      if nullable r1
      then Alt (Cat (deriv ignorecase c r1) r2) (deriv ignorecase c r2)
      else Cat (deriv ignorecase c r1) r2
  | Alt r1 r2 => Alt (deriv ignorecase c r1) (deriv ignorecase c r2)
  | Star r1 => Cat (deriv ignorecase c r1) (Star r1)
  | Plus r1 => Cat (deriv ignorecase c r1) (Star r1)
  | Opt r1 => deriv ignorecase c r1
  end.

(** The body matches the whole of [s]. *)
Fixpoint fullmatch (ignorecase : bool) (r : regex) (s : str) : bool :=
  match s with
  | [] => nullable r
  | c :: rest => fullmatch ignorecase (deriv ignorecase c r) rest
  end.

(** The body matches some prefix of [s]. *)
Fixpoint prefixmatch (ignorecase : bool) (r : regex) (s : str) : bool :=
  nullable r ||
  match s with
  | [] => false
  | c :: rest => prefixmatch ignorecase (deriv ignorecase c r) rest
  end.

(** [re.match(p, s, flags)] as a truth value.  A final [$] holds at the end
    of [s] and just before a newline that ends [s]. *)
Definition re_match (p : pattern) (s : str) (ignorecase : bool) : bool :=
  if dollar p then
    fullmatch ignorecase (body p) s ||
    (endswith s [newline] && fullmatch ignorecase (body p) (removelast s))
  else prefixmatch ignorecase (body p) s.

(** The words of a pattern, for readability. *)
Definition word (s : string) : regex :=
  fold_right (fun c r => Cat (Lit c) r) Eps (list_ascii_of_string s).

Definition chr (s : string) : ascii :=
  match s with String c _ => c | EmptyString => Ascii.zero end.

Declare Scope regex_scope.
Delimit Scope regex_scope with re.
Infix ">>" := Cat (at level 41, right associativity) : regex_scope.
Infix "<|>" := Alt (at level 51, right associativity) : regex_scope.

(* ----------------------------------------------------------------- *)
(** ** Sorting, dictionaries and enumeration *)

(** [sorted] is stable and compares with [<] only.  On the keys met here
    (no NaN) the stable sorted arrangement is unique, so that sorting by
    insertion from the right computes what [sorted] returns. *)
Fixpoint insert_by {A : Type} (lt : A -> A -> bool) (x : A) (l : list A) : list A :=
  match l with
  | [] => [x]
  | y :: rest => if lt y x then y :: insert_by lt x rest else x :: l
  end.

Definition py_sorted {A : Type} (lt : A -> A -> bool) (l : list A) : list A :=
  fold_right (insert_by lt) [] l.

(** [sorted(l, reverse=True)]: the list is reversed, sorted, and reversed
    again. *)
Definition py_sorted_reverse {A : Type} (lt : A -> A -> bool) (l : list A) : list A :=
  rev (py_sorted lt (rev l)).

(** [enumerate(l)] *)
Definition enumerate {A : Type} (l : list A) : list (nat * A) :=
  combine (seq 0 (List.length l)) l.

(** A [dict] with numbers as keys, in insertion order. *)
Definition dict (V : Type) : Type := list (number * V).

Fixpoint dict_set {V : Type} (d : dict V) (k : number) (v : V) : dict V :=
  match d with
  | [] => [(k, v)]
  | (k', v') :: rest =>
      if py_eq k' k then (k', v) :: rest else (k', v') :: dict_set rest k v
  end.

Fixpoint dict_get {V : Type} (d : dict V) (k : number) (default : V) : V :=
  match d with
  | [] => default
  | (k', v') :: rest => if py_eq k' k then v' else dict_get rest k default
  end.

(* ----------------------------------------------------------------- *)
(** ** Sets of numbers

    [set(xs)] holds the distinct values of [xs]; the order in which it is
    iterated is the order of the slots of CPython's hash table
    (Objects/setobject.c): open addressing over a table of [mask + 1]
    slots, a power of two, each probe looking at up to [LINEAR_PROBES]
    following slots before it jumps. *)

Definition hash_modulus : Z := 2 ^ 61 - 1.

(** [hash(x)]: the value of [x] reduced modulo [2^61 - 1], with the sign of
    [x]; never -1.  (No NaN reaches a set or a dictionary here.) *)
Definition hash_number (x : number) : Z :=
  match x with
  | S754_zero _ => 0
  | S754_infinity s => if s then -314159 else 314159
  | S754_nan => 0
  | S754_finite s m e =>
      let h := (Zpos m * 2 ^ (e mod 61)) mod hash_modulus in
      let h := if s then - h else h in
      if h =? -1 then -2 else h
  end%Z.

Record setentry : Type := SetEntry { entry_key : number; entry_hash : Z }.

Record setobject : Type := SetObject {
  so_table : list (option setentry);   (* [None]: an unused slot *)
  so_mask : Z;
  so_fill : Z                          (* = used: nothing is ever removed *)
}.

Definition LINEAR_PROBES : Z := 9.
Definition PERTURB_SHIFT : Z := 5.
Definition PySet_MINSIZE : Z := 8.

Definition slot (t : list (option setentry)) (i : nat) : option setentry :=
  nth i t None.

Fixpoint set_slot (t : list (option setentry)) (i : nat) (e : setentry)
  : list (option setentry) :=
  match t, i with
  | [], _ => []
  | _ :: rest, O => Some e :: rest
  | s :: rest, S i' => s :: set_slot rest i' e
  end.

(** One run over the slots [i .. i + probes]: [Some (j, false)] at the
    first unused slot [j], [Some (j, true)] at a slot whose entry passes
    [same], [None] when the run ends without either. *)
Fixpoint probe_run (t : list (option setentry)) (same : setentry -> bool)
    (i probes : nat) : option (nat * bool) :=
  match slot t i with
  | None => Some (i, false)
  | Some e =>
      if same e then Some (i, true)
      else match probes with
           | O => None
           | S probes' => probe_run t same (S i) probes'
           end
  end.

(** The probe loop of [set_add_entry] and [set_insert_clean]. *)
Fixpoint probe_loop (fuel : nat) (t : list (option setentry)) (mask : Z)
    (same : setentry -> bool) (i perturb : Z) : option (nat * bool) :=
  match fuel with
  | O => None
  | S fuel' =>
      let probes := if (i + LINEAR_PROBES <=? mask)%Z then LINEAR_PROBES else 0%Z in
      match probe_run t same (Z.to_nat i) (Z.to_nat probes) with
      | Some r => Some r
      | None =>
          let perturb' := Z.shiftr perturb PERTURB_SHIFT in
          probe_loop fuel' t mask same (Z.land (i * 5 + 1 + perturb') mask) perturb'
      end
  end.

(** Enough rounds for the probe sequence to have visited every slot. *)
Definition probe_rounds (mask : Z) : nat := 14 + Z.to_nat (mask + 1).

Definition probe (t : list (option setentry)) (mask : Z)
    (same : setentry -> bool) (hash : Z) : option (nat * bool) :=
  probe_loop (probe_rounds mask) t mask same (Z.land hash mask) (hash mod 2 ^ 64).

(** [set_insert_clean]: the key is known to be absent. *)
Definition set_insert_clean (t : list (option setentry)) (mask : Z) (e : setentry)
  : list (option setentry) :=
  match probe t mask (fun _ => false) (entry_hash e) with
  | Some (j, _) => set_slot t j e
  | None => t
  end.

Definition entries (t : list (option setentry)) : list setentry :=
  flat_map (fun s => match s with Some e => [e] | None => [] end) t.

(** [set_table_resize]: the new size is [PySet_MINSIZE = 2 ^ 3] doubled
    until it is above [minused]; the entries move in slot order. *)
Definition set_table_resize (so : setobject) (minused : Z) : setobject :=
  let newsize := (2 ^ Z.max 3 (Z.log2 minused + 1))%Z in
  let newmask := (newsize - 1)%Z in
  let empty := repeat None (Z.to_nat newsize) in
  SetObject
    (fold_left (fun t e => set_insert_clean t newmask e) (entries (so_table so)) empty)
    newmask (so_fill so).

Definition same_key (key : number) (hash : Z) (e : setentry) : bool :=
  (entry_hash e =? hash)%Z && py_eq (entry_key e) key.

(** [set_add_entry] *)
Definition set_add_entry (so : setobject) (key : number) (hash : Z) : setobject :=
  match probe (so_table so) (so_mask so) (same_key key hash) hash with
  | Some (_, true) => so
  | Some (j, false) =>
      let fill := (so_fill so + 1)%Z in
      let so' := SetObject (set_slot (so_table so) j (SetEntry key hash)) (so_mask so) fill in
      if (fill * 5 <? so_mask so * 3)%Z then so'
      else set_table_resize so' (if (50000 <? fill)%Z then fill * 2 else fill * 4)%Z
  | None => so
  end.

Definition set_add_key (so : setobject) (key : number) : setobject :=
  set_add_entry so key (hash_number key).

Definition empty_set : setobject :=
  SetObject (repeat None (Z.to_nat PySet_MINSIZE)) (PySet_MINSIZE - 1) 0.

(** [set(xs)], as the sequence its iteration yields. *)
Definition py_set (xs : list number) : list number :=
  map entry_key (entries (so_table (fold_left set_add_key xs empty_set))).

(* ================================================================= *)
(** * Part II: the module *)

(* ----------------------------------------------------------------- *)
(** ** The document, as PyMuPDF hands it over *)

(** A span of [page.get_text("dict")]: the keys ["text"], ["size"] and
    ["flags"]. *)
Record Span : Type := mkSpan {
  span_text : str;
  span_size : number;
  span_flags : Z
}.

(** A line: its ["spans"]. *)
Record Line : Type := mkLine { spans : list Span }.

(** A block; an image block has no ["lines"] key. *)
Record Block : Type := mkBlock { lines : option (list Line) }.

(** A page: its ["blocks"]. *)
Record Page : Type := mkPage { blocks : list Block }.

(** [doc.metadata.get('title')] and the pages. *)
Record Document : Type := mkDocument {
  metadata_title : option str;
  pages : list Page
}.

(** The [Heading] dataclass. *)
Record Heading : Type := mkHeading {
  level : str;
  text : str;
  page : nat;
  font_size : number;
  font_flags : Z
}.

(** An item of [all_text_info]. *)
Record TextInfo : Type := mkTextInfo {
  info_text : str;
  info_font_size : number;
  info_font_flags : Z;
  info_page : nat
}.

(** An item of the ["outline"] list, and the returned dictionary. *)
Record OutlineItem : Type := mkOutlineItem {
  item_level : str;
  item_text : str;
  item_page : nat
}.

Record Outline : Type := mkOutline {
  title : str;
  outline : list OutlineItem
}.

(* ----------------------------------------------------------------- *)
(** ** [PDFOutlineExtractor.__init__] *)

Definition A_Z : set_item := ItemRange (chr "A") (chr "Z").
Definition a_z : set_item := ItemRange (chr "a") (chr "z").

Definition heading_patterns : list pattern :=
  [ Pattern "^(Chapter|Section|Part)\s+\d+[\.:]\s*(.+)"
            ((word "Chapter" <|> word "Section" <|> word "Part") >> Plus Space >>
             Plus Digit >> OneOf [ItemChar (chr "."); ItemChar (chr ":")] >>
             Star Space >> Plus Dot)%re false;
    Pattern "^(\d+\.?\d*\.?\d*)\s+(.+)"
            ((Plus Digit >> Opt (Lit (chr ".")) >> Star Digit >>
              Opt (Lit (chr ".")) >> Star Digit) >> Plus Space >> Plus Dot)%re false;
    (* ALL CAPS headers *)
    Pattern "^([A-Z][A-Z\s]+)$"
            (OneOf [A_Z] >> Plus (OneOf [A_Z; ItemSpace]))%re true;
    (* Title case headers *)
    Pattern "^([A-Z][a-z]+(?:\s+[A-Z][a-z]+)*)\s*$"
            ((OneOf [A_Z] >> Plus (OneOf [a_z]) >>
              Star (Plus Space >> OneOf [A_Z] >> Plus (OneOf [a_z]))) >>
             Star Space)%re true ].

Definition heading_keywords : list str :=
  map py
    [ "introduction"; "conclusion"; "abstract"; "summary"; "overview";
      "methodology"; "results"; "discussion"; "background"; "literature";
      "references"; "appendix"; "acknowledgments"; "contents"; "index" ]%string.

(* ----------------------------------------------------------------- *)
(** ** [extract_title_from_document] *)

(** The state of the scan of the first page: [(largest_text, largest_size)]. *)
Definition title_scan_span (st : str * number) (span : Span) : str * number :=
  if py_gt (span_size span) (snd st)
  then (strip (span_text span), span_size span)
  else st.

Definition title_scan_line (st : str * number) (line : Line) : str * number :=
  fold_left title_scan_span (spans line) st.

Definition title_scan_block (st : str * number) (block : Block) : str * number :=
  match lines block with
  | Some ls => fold_left title_scan_line ls st
  | None => st
  end.

Definition untitled : str := py "Untitled Document".

Definition extract_title_from_document (doc : Document) : str :=
  match metadata_title doc with
  | Some (c :: t) => strip (c :: t)
  | _ =>
      match pages doc with
      | first_page :: _ =>
          let largest_text :=
            fst (fold_left title_scan_block (blocks first_page) ([], num 0)) in
          if negb (str_eqb largest_text []) && (3 <? List.length largest_text)
          then largest_text
          else untitled
      | [] => untitled
      end
  end.

(* ----------------------------------------------------------------- *)
(** ** [is_heading_candidate] *)

Definition numbers_or_special : pattern :=
  Pattern "^[\d\s\.\-\(\)]+$"
          (Plus (OneOf [ItemDigit; ItemSpace; ItemChar (chr "."); ItemChar (chr "-");
                        ItemChar (chr "("); ItemChar (chr ")")])) true.

Definition non_heading_endings : list str :=
  map py [ "."; "!"; "?"; ","; ";"; ":" ]%string.

Definition size_threshold (avg_font_size common_font_size : number) : number :=
  py_max (py_mul avg_font_size (num 1.1)) (py_mul common_font_size (num 1.05)).

Definition is_heading_candidate (text : str) (font_size : number) (font_flags : Z)
    (avg_font_size common_font_size : number) : bool :=
  let text_clean := strip text in
  (* Skip very short or very long text *)
  if (List.length text_clean <? 3) || (200 <? List.length text_clean) then false
  (* Skip if it's just numbers or special characters *)
  else if re_match numbers_or_special text_clean false then false
  (* Check if text ends with common non-heading punctuation *)
  else if existsb (endswith text_clean) non_heading_endings then false
  (* Font size criteria *)
  else if py_ge font_size (size_threshold avg_font_size common_font_size) then true
  (* Bold or other formatting flags *)
  else if negb (Z.land font_flags (2 ^ 4) =? 0)%Z then true
  (* Pattern matching *)
  else if existsb (fun p => re_match p text_clean true) heading_patterns then true
  (* Keyword matching *)
  else if existsb (contains (py_lower text_clean)) heading_keywords then true
  else false.

(* ----------------------------------------------------------------- *)
(** ** [determine_heading_level] *)

Definition determine_heading_level (heading : Heading) (all_headings : list Heading) : str :=
  let font_sizes := map font_size all_headings in
  let unique_sizes := py_sorted_reverse py_lt (py_set font_sizes) in
  (* Only H1, H2, H3 *)
  let size_to_level :=
    fold_left (fun d '(i, size) => dict_set d size (level_name (i + 1)))
              (enumerate (firstn 3 unique_sizes)) [] in
  dict_get size_to_level (font_size heading) (py "H3").

(* ----------------------------------------------------------------- *)
(** ** [extract_outline] *)

(** The loop over the spans of a line: [(line_text, line_font_size,
    line_font_flags)]. *)
Definition merge_span (st : str * number * Z) (span : Span) : str * number * Z :=
  let '(line_text, line_font_size, line_font_flags) := st in
  (line_text ++ span_text span,
   py_max line_font_size (span_size span),
   Z.lor line_font_flags (span_flags span)).

Definition collect_line (page_num : nat) (acc : list TextInfo) (line : Line)
  : list TextInfo :=
  let '(line_text, line_font_size, line_font_flags) :=
    fold_left merge_span (spans line) ([], num 0, 0%Z) in
  if negb (str_eqb (strip line_text) [])
  then acc ++ [mkTextInfo (strip line_text) line_font_size line_font_flags (page_num + 1)]
  else acc.

Definition collect_block (page_num : nat) (acc : list TextInfo) (block : Block)
  : list TextInfo :=
  match lines block with
  | Some ls => fold_left (collect_line page_num) ls acc
  | None => acc
  end.

Definition collect_page (acc : list TextInfo) (numbered : nat * Page) : list TextInfo :=
  let '(page_num, page) := numbered in
  fold_left (collect_block page_num) (blocks page) acc.

(** [all_text_info] after the loop over [range(min(len(doc), 50))]; the list
    [font_sizes] is its [font_size] column. *)
Definition collect_text_info (doc : Document) : list TextInfo :=
  let n := Nat.min (List.length (pages doc)) 50 in
  fold_left collect_page (combine (seq 0 n) (pages doc)) [].

Definition average_font_size (font_sizes : list number) : number :=
  match font_sizes with
  | [] => num 12
  | _ => py_div (py_sum font_sizes) (number_of_nat (List.length font_sizes))
  end.

(** [max(set(font_sizes), key=font_sizes.count) if font_sizes else 12].
    The set of a non-empty list is not empty ([py_set_not_empty] below), so
    that [max] has a first item. *)
Definition most_common_font_size (font_sizes : list number) : number :=
  match font_sizes with
  | [] => num 12
  | _ :: _ =>
      match py_set font_sizes with
      | first :: rest => max_by_from (py_count font_sizes) first rest
      | [] => num 12
      end
  end.

Definition candidate_headings (all_text_info : list TextInfo)
    (avg_font_size common_font_size : number) : list Heading :=
  flat_map
    (fun info =>
       if is_heading_candidate (info_text info) (info_font_size info)
            (info_font_flags info) avg_font_size common_font_size
       then [mkHeading [] (info_text info) (info_page info)
                       (info_font_size info) (info_font_flags info)]
       else [])
    all_text_info.

(** [heading.level = self.determine_heading_level(heading, headings)] for
    each heading in turn.  The levels depend on the font sizes only, which
    the assignments leave alone. *)
Definition assign_levels (headings : list Heading) : list Heading :=
  map (fun h => mkHeading (determine_heading_level h headings)
                          (text h) (page h) (font_size h) (font_flags h))
      headings.

(** The order of the keys [(h.page, h.font_size)]: tuples compare at their
    first differing component. *)
Definition key_lt (a b : Heading) : bool :=
  if negb (Nat.eqb (page a) (page b)) then page a <? page b
  else if negb (py_eq (font_size a) (font_size b)) then py_lt (font_size a) (font_size b)
  else false.

(** The pass that drops the headings whose text was seen before. *)
Fixpoint unique_pass (seen : list str) (sorted_headings : list Heading) : list Heading :=
  match sorted_headings with
  | [] => []
  | heading :: rest =>
      if existsb (str_eqb (text heading)) seen
      then unique_pass seen rest
      else heading :: unique_pass (text heading :: seen) rest
  end.

Definition unique_headings (headings : list Heading) : list Heading :=
  unique_pass [] (py_sorted key_lt headings).

Definition to_outline (headings : list Heading) : list OutlineItem :=
  map (fun h => mkOutlineItem (level h) (text h) (page h)) headings.

Definition extract_outline (doc : Document) : Outline :=
  let title := extract_title_from_document doc in
  let all_text_info := collect_text_info doc in
  let font_sizes := map info_font_size all_text_info in
  let avg_font_size := average_font_size font_sizes in
  let common_font_size := most_common_font_size font_sizes in
  let headings := candidate_headings all_text_info avg_font_size common_font_size in
  let headings := assign_levels headings in
  mkOutline title (to_outline (unique_headings headings)).

(* ----------------------------------------------------------------- *)
(** ** [main]

    The directory listing, [fitz.open] and the opening of the output files
    are the inputs.  [open_pdf path] is what [fitz.open(path)] returns, or
    [None] when it raises; [can_write path] tells whether
    [open(path, 'w')] succeeds.  The result is the sequence of the files
    written, each with the dictionary dumped into it: a dictionary of
    strings and integers, whose dump does not raise. *)

(** What [fitz.open] returns.  The [metadata] of a document that is
    encrypted and was not unlocked is [None], not a dictionary; every other
    document is a [Document]. *)
Inductive FitzDocument : Type :=
  | Locked
  | Readable (doc : Document).

(** [extract_outline(pdf_path)], from the path: [fitz.open] may raise, and
    on a locked document [metadata.get] raises in
    [extract_title_from_document], the first call after the opening.
    [None] stands for the exception. *)
Definition extract_outline_path (open_pdf : str -> option FitzDocument)
    (pdf_path : str) : option Outline :=
  match open_pdf pdf_path with
  | Some (Readable doc) => Some (extract_outline doc)
  | Some Locked => None
  | None => None
  end.

(** [s.replace(old, new)] for a non-empty [old]: the occurrences are
    replaced from the left, without overlap.  [skip] counts the characters
    of an occurrence still to be passed over. *)
Fixpoint replace_from (old new : str) (skip : nat) (s : str) : str :=
  match s with
  | [] => []
  | c :: rest =>
      match skip with
      | S k => replace_from old new k rest
      | O =>
          if startswith s old
          then new ++ replace_from old new (List.length old - 1) rest
          else c :: replace_from old new 0 rest
      end
  end.

Definition str_replace (s old new : str) : str := replace_from old new 0 s.

(** [os.path.join(dir, name)] of [posixpath]. *)
Definition path_join (dir name : str) : str :=
  if startswith name (py "/") then name
  else if str_eqb dir [] || endswith dir (py "/") then dir ++ name
  else dir ++ py "/" ++ name.

Definition input_dir : str := py "/app/input".
Definition output_dir : str := py "/app/output".

(** The body of the loop over [os.listdir(input_dir)].  The extraction and
    the writing are in one [try]: an exception of either is logged, nothing
    is written for the entry, and the loop goes on. *)
Definition process_file (open_pdf : str -> option FitzDocument)
    (can_write : str -> bool)
    (written : list (str * Outline)) (filename : str) : list (str * Outline) :=
  if endswith (py_lower filename) (py ".pdf") then
    let pdf_path := path_join input_dir filename in
    match extract_outline_path open_pdf pdf_path with
    | Some result =>
        let output_filename := str_replace filename (py ".pdf") (py ".json") in
        let output_path := path_join output_dir output_filename in
        if can_write output_path
        then written ++ [(output_path, result)]
        else written
    | None => written
    end
  else written.

Definition main (listdir : list str) (open_pdf : str -> option FitzDocument)
    (can_write : str -> bool) : list (str * Outline) :=
  fold_left (process_file open_pdf can_write) listdir [].

(* ================================================================= *)
(** * Part III: properties *)

(* ----------------------------------------------------------------- *)
(** ** What the matcher decides

    [Matches ic r s]: the whole of [s] belongs to the language of [r]. *)

Inductive Matches (ic : bool) : regex -> str -> Prop :=
  | M_eps : Matches ic Eps []
  | M_char r c : accepts ic r c = true -> Matches ic r [c]
  | M_cat r1 r2 s1 s2 :
      Matches ic r1 s1 -> Matches ic r2 s2 -> Matches ic (Cat r1 r2) (s1 ++ s2)
  | M_alt_l r1 r2 s : Matches ic r1 s -> Matches ic (Alt r1 r2) s
  | M_alt_r r1 r2 s : Matches ic r2 s -> Matches ic (Alt r1 r2) s
  | M_star_nil r : Matches ic (Star r) []
  | M_star_app r s1 s2 :
      Matches ic r s1 -> Matches ic (Star r) s2 -> Matches ic (Star r) (s1 ++ s2)
  | M_plus r s1 s2 :
      Matches ic r s1 -> Matches ic (Star r) s2 -> Matches ic (Plus r) (s1 ++ s2)
  | M_opt_nil r : Matches ic (Opt r) []
  | M_opt_some r s : Matches ic r s -> Matches ic (Opt r) s.

Create HintDb regex.
#[local] Hint Constructors Matches : regex.

(** Inversion of a [Matches] hypothesis, without the cases of one-character
    patterns that cannot apply. *)
Ltac inv_matches H :=
  inversion H; subst;
  try match goal with
      | X : accepts _ _ _ = true |- _ => solve [simpl in X; discriminate]
      end.

Section MatcherCorrect.
Variable ic : bool.

Lemma nullable_matches r : nullable r = true -> Matches ic r [].
Proof.
  induction r; simpl; intros H; try discriminate; auto with regex.
  - apply andb_prop in H as [H1 H2].
    change (@nil ascii) with (@nil ascii ++ []). auto with regex.
  - apply orb_prop in H as [H | H]; auto with regex.
  - change (@nil ascii) with (@nil ascii ++ []). auto with regex.
Qed.

Lemma matches_nil_nullable r s : Matches ic r s -> s = [] -> nullable r = true.
Proof.
  induction 1; simpl; intros E; subst; auto; try discriminate.
  - apply app_eq_nil in E as [-> ->]. rewrite IHMatches1, IHMatches2; auto.
  - rewrite IHMatches; auto.
  - rewrite IHMatches, orb_true_r; auto.
  - apply app_eq_nil in E as [-> ->]. auto.
Qed.

Lemma accepts_atom r c : accepts ic r c = true -> deriv ic c r = Eps.
Proof.
  destruct r; simpl; intros H; try discriminate; simpl in H; rewrite ?H; reflexivity.
Qed.

(** Reading [c] and then matching the derivative is matching from [c]. *)
Lemma matches_deriv r s c : Matches ic r (c :: s) -> Matches ic (deriv ic c r) s.
Proof.
  intros H. remember (c :: s) as cs eqn:E. revert c s E.
  induction H; intros c0 s0 E; try discriminate.
  - injection E as -> <-. rewrite (accepts_atom _ _ H). constructor.
  - simpl. destruct s1 as [| c1 s1'].
    + simpl in E. subst s2.
      rewrite (matches_nil_nullable _ _ H eq_refl).
      apply M_alt_r. apply IHMatches2. reflexivity.
    + simpl in E. injection E as -> <-.
      assert (Matches ic (Cat (deriv ic c0 r1) r2) (s1' ++ s2))
        by (constructor; auto).
      destruct (nullable r1); auto with regex.
  - simpl. apply M_alt_l. auto.
  - simpl. apply M_alt_r. auto.
  - simpl. destruct s1 as [| c1 s1'].
    + simpl in E. apply IHMatches2 in E. exact E.
    + simpl in E. injection E as -> <-. constructor; auto.
  - simpl. destruct s1 as [| c1 s1'].
    + simpl in E. subst s2.
      specialize (IHMatches2 _ _ eq_refl). exact IHMatches2.
    + simpl in E. injection E as -> <-. constructor; auto.
  - simpl. subst. auto.
Qed.

Lemma deriv_matches r : forall s c, Matches ic (deriv ic c r) s -> Matches ic r (c :: s).
Proof.
  induction r; intros s c0 H; cbn [deriv] in H;
    try (destruct (accepts ic _ c0) eqn:E in H);
    try solve [inv_matches H; try constructor; auto with regex].
  - assert (C : forall t, Matches ic (Cat (deriv ic c0 r1) r2) t ->
                          Matches ic (Cat r1 r2) (c0 :: t)).
    { intros t Ht. inv_matches Ht.
      change (c0 :: s1 ++ s2) with ((c0 :: s1) ++ s2). constructor; auto. }
    destruct (nullable r1) eqn:N; auto.
    inv_matches H; auto.
    change (c0 :: s) with ([] ++ c0 :: s). constructor; auto.
    apply nullable_matches; exact N.
  - inv_matches H.
    change (c0 :: s1 ++ s2) with ((c0 :: s1) ++ s2). constructor; auto.
  - inv_matches H.
    change (c0 :: s1 ++ s2) with ((c0 :: s1) ++ s2). constructor; auto.
Qed.

(** [fullmatch] decides [Matches]. *)
Lemma fullmatch_iff s : forall r, fullmatch ic r s = true <-> Matches ic r s.
Proof.
  induction s as [| c s IH]; intros r; simpl.
  - split; [apply nullable_matches | intros H; exact (matches_nil_nullable _ _ H eq_refl)].
  - rewrite IH. split; [apply deriv_matches | apply matches_deriv].
Qed.

(** [prefixmatch] decides whether a prefix matches. *)
Lemma prefixmatch_iff s : forall r,
  prefixmatch ic r s = true <-> exists s1 s2, s = s1 ++ s2 /\ Matches ic r s1.
Proof.
  induction s as [| c s IH]; intros r; simpl.
  - rewrite orb_false_r. split.
    + intros H. exists [], []. split; [reflexivity | apply nullable_matches; exact H].
    + intros (s1 & s2 & E & H). symmetry in E. apply app_eq_nil in E as [-> ->].
      exact (matches_nil_nullable _ _ H eq_refl).
  - split.
    + intros H. apply orb_prop in H as [H | H].
      * exists [], (c :: s). split; [reflexivity | apply nullable_matches; exact H].
      * apply IH in H as (s1 & s2 & -> & H).
        exists (c :: s1), s2. split; [reflexivity | apply deriv_matches; exact H].
    + intros (s1 & s2 & E & H). destruct s1 as [| c1 s1].
      * rewrite (matches_nil_nullable _ _ H eq_refl). reflexivity.
      * simpl in E. injection E as <- ->. apply orb_true_iff. right.
        apply IH. exists s1, s2. split; [reflexivity | apply matches_deriv; exact H].
Qed.
End MatcherCorrect.

(** A star of a one-character pattern matches the strings of accepted
    characters, and only them. *)
Lemma star_of_accepted ic r s :
  Forall (fun c => accepts ic r c = true) s -> Matches ic (Star r) s.
Proof.
  induction 1 as [| c s Hc _ IH]; [constructor |].
  change (c :: s) with ([c] ++ s). constructor; [constructor; exact Hc | exact IH].
Qed.

Lemma plus_of_accepted ic r c s :
  Forall (fun c => accepts ic r c = true) (c :: s) -> Matches ic (Plus r) (c :: s).
Proof.
  intros H. inversion H; subst.
  change (c :: s) with ([c] ++ s).
  constructor; [constructor; assumption | apply star_of_accepted; assumption].
Qed.

Lemma star_set_accepted ic items s :
  Matches ic (Star (OneOf items)) s ->
  Forall (fun c => accepts ic (OneOf items) c = true) s.
Proof.
  intros H. remember (Star (OneOf items)) as r eqn:E.
  induction H; try discriminate; [subst; discriminate | constructor |].
  injection E as ->. inv_matches H.
  simpl. constructor; auto.
Qed.

Lemma plus_set_accepted ic items s :
  Matches ic (Plus (OneOf items)) s ->
  s <> [] /\ Forall (fun c => accepts ic (OneOf items) c = true) s.
Proof.
  intros H. inversion H; subst; [discriminate |].
  match goal with X : Matches ic (OneOf items) _ |- _ => inversion X; subst end.
  split; [discriminate |].
  simpl. constructor; [assumption | apply star_set_accepted; assumption].
Qed.

(* ----------------------------------------------------------------- *)
(** ** Strings *)

Lemma lstrip_head s c rest : lstrip s = c :: rest -> isspace c = false.
Proof.
  induction s as [| a s IH]; simpl; [discriminate |].
  destruct (isspace a) eqn:E; [exact IH |].
  intros H. injection H as <- _. exact E.
Qed.

(** A stripped string does not end with white space. *)
Lemma strip_last s front c : strip s = front ++ [c] -> isspace c = false.
Proof.
  unfold strip, rstrip. intros H.
  apply (f_equal (@rev ascii)) in H. rewrite rev_involutive, rev_app_distr in H.
  simpl in H. exact (lstrip_head _ _ _ H).
Qed.

Lemma endswith_last front c : endswith (front ++ [c]) [c] = true.
Proof.
  unfold endswith. rewrite rev_app_distr. simpl.
  rewrite Ascii.eqb_refl. destruct (rev front); reflexivity.
Qed.

Lemma endswith_char s c : endswith s [c] = true -> exists front, s = front ++ [c].
Proof.
  unfold endswith. simpl. intros H.
  destruct (rev s) as [| a r] eqn:E; [discriminate |].
  apply andb_prop in H as [H _]. apply Ascii.eqb_eq in H. subst a.
  exists (rev r). rewrite <- (rev_involutive s), E. reflexivity.
Qed.

Lemma str_eqb_nil s : str_eqb s [] = true <-> s = [].
Proof.
  unfold str_eqb. destruct (list_eq_dec ascii_dec s []); split; congruence.
Qed.

Lemma str_eqb_eq a b : str_eqb a b = true <-> a = b.
Proof.
  unfold str_eqb. destruct (list_eq_dec ascii_dec a b); split; congruence.
Qed.

(* ----------------------------------------------------------------- *)
(** ** The reject filters of [is_heading_candidate] *)

(** A digit, white space, or one of [.], [-], [(], [)]. *)
Definition number_or_special_char (c : ascii) : bool :=
  isdecimal c || isspace c ||
  existsb (Ascii.eqb c) [chr "."; chr "-"; chr "("; chr ")"].

Definition non_heading_punctuation : list ascii :=
  [chr "."; chr "!"; chr "?"; chr ","; chr ";"; chr ":"].

(** The three reject filters, on the trimmed text. *)
Definition reject_filters (text_clean : str) : Prop :=
  List.length text_clean < 3 \/ 200 < List.length text_clean \/
  Forall (fun c => number_or_special_char c = true) text_clean \/
  exists front c, text_clean = front ++ [c] /\ In c non_heading_punctuation.

Lemma numbers_or_special_accepts c :
  accepts false (body numbers_or_special) c = false.
Proof. reflexivity. Qed.

Lemma special_set_accepts c :
  existsb (fun it => item_matches false it c)
    [ItemDigit; ItemSpace; ItemChar (chr "."); ItemChar (chr "-");
     ItemChar (chr "("); ItemChar (chr ")")]
  = number_or_special_char c.
Proof.
  unfold number_or_special_char, item_matches. simpl.
  rewrite !orb_false_r, !(Ascii.eqb_sym c). rewrite <- !orb_assoc. reflexivity.
Qed.

(** The pattern of the second filter matches exactly the non-empty strings
    of digits, white space and [.-()]. *)
Lemma numbers_or_special_iff s :
  re_match numbers_or_special s false = true <->
  s <> [] /\ Forall (fun c => number_or_special_char c = true) s.
Proof.
  unfold re_match, numbers_or_special; cbn [dollar body]. split.
  - intros H. apply orb_prop in H as [H | H].
    + apply fullmatch_iff, plus_set_accepted in H as [Hne H]. split; [exact Hne |].
      eapply Forall_impl; [| exact H]. intros c Hc. simpl in Hc.
      rewrite <- special_set_accepts. exact Hc.
    + apply andb_prop in H as [He H].
      apply endswith_char in He as [front ->].
      rewrite removelast_last in H.
      apply fullmatch_iff, plus_set_accepted in H as [_ H].
      split; [destruct front; discriminate |].
      apply Forall_app. split; [| repeat constructor].
      eapply Forall_impl; [| exact H]. intros c Hc. simpl in Hc.
      rewrite <- special_set_accepts. exact Hc.
  - intros [Hne H]. apply orb_true_iff. left. apply fullmatch_iff.
    destruct s as [| c s]; [congruence |].
    apply plus_of_accepted.
    eapply Forall_impl; [| exact H]. intros a Ha. cbv beta in Ha.
    rewrite <- special_set_accepts in Ha. exact Ha.
Qed.

Lemma non_heading_endings_iff s :
  existsb (endswith s) non_heading_endings = true <->
  exists front c, s = front ++ [c] /\ In c non_heading_punctuation.
Proof.
  split.
  - intros H. apply existsb_exists in H as (e & He & H).
    unfold non_heading_endings in He. simpl in He.
    repeat (destruct He as [<- | He];
            [apply endswith_char in H as [front ->]; exists front; eexists;
             split; [reflexivity | simpl; tauto] |]).
    contradiction.
  - intros (front & c & -> & Hc). apply existsb_exists.
    exists [c]. split; [| apply endswith_last].
    simpl in Hc. unfold non_heading_endings. simpl.
    repeat (destruct Hc as [<- | Hc]; [tauto |]). contradiction.
Qed.

(** The code's three tests, as one truth value. *)
Definition rejected (text_clean : str) : bool :=
  (List.length text_clean <? 3) || (200 <? List.length text_clean) ||
  re_match numbers_or_special text_clean false ||
  existsb (endswith text_clean) non_heading_endings.

Lemma rejected_iff t : rejected t = true <-> reject_filters t.
Proof.
  unfold rejected, reject_filters.
  rewrite !orb_true_iff, Nat.ltb_lt, Nat.ltb_lt, numbers_or_special_iff,
    non_heading_endings_iff.
  split.
  - intros [[[H | H] | [_ H]] | H]; auto.
  - intros [H | [H | [H | H]]]; auto.
    destruct t as [| c t]; [simpl; left; left; left; lia |].
    left; right. split; [discriminate | exact H].
Qed.

Lemma is_heading_candidate_rejected text fs fl avg common :
  rejected (strip text) = true ->
  is_heading_candidate text fs fl avg common = false.
Proof.
  unfold rejected, is_heading_candidate. cbv zeta.
  set (t := strip text).
  destruct ((List.length t <? 3) || (200 <? List.length t)); [reflexivity |].
  destruct (re_match numbers_or_special t false); [reflexivity |].
  destruct (existsb (endswith t) non_heading_endings); [reflexivity | discriminate].
Qed.

Lemma is_heading_candidate_kept text fs fl avg common :
  rejected (strip text) = false ->
  is_heading_candidate text fs fl avg common =
    (py_ge fs (size_threshold avg common)
     || negb (Z.land fl (2 ^ 4) =? 0)%Z
     || existsb (fun p => re_match p (strip text) true) heading_patterns
     || existsb (contains (py_lower (strip text))) heading_keywords).
Proof.
  unfold rejected, is_heading_candidate. cbv zeta. intros H.
  apply orb_false_iff in H as [H H3]. apply orb_false_iff in H as [H1 H2].
  rewrite H1, H2, H3.
  destruct (py_ge fs _); [reflexivity |].
  destruct (negb _); [reflexivity |].
  destruct (existsb _ heading_patterns); [reflexivity |].
  destruct (existsb _ heading_keywords); reflexivity.
Qed.

(** C1.  The reject filters come before every accept rule: when the trimmed
    text is shorter than 3 or longer than 200 characters, or is made of
    digits, white space and [.-()] only, or ends in one of [.!?,;:], then
    [is_heading_candidate] returns false whatever the font size, the style
    flags and the font profile are.  In particular ["see fig. 3."] at size
    20 is rejected. *)
Theorem reject_filters_first :
  (forall text font_size font_flags avg_font_size common_font_size,
      reject_filters (strip text) ->
      is_heading_candidate text font_size font_flags avg_font_size common_font_size
      = false) /\
  (forall font_flags avg_font_size common_font_size,
      is_heading_candidate (py "see fig. 3.") (num 20) font_flags
        avg_font_size common_font_size = false).
Proof.
  split.
  - intros text fs fl avg common H.
    apply is_heading_candidate_rejected, rejected_iff, H.
  - intros fl avg common. apply is_heading_candidate_rejected. reflexivity.
Qed.

Lemma reject_filters_first_witness :
  reject_filters (strip (py "12.5 (3)")) /\
  is_heading_candidate (py "12.5 (3)") (num 20) 16 (num 12) (num 12) = false.
Proof.
  assert (H : reject_filters (strip (py "12.5 (3)"))).
  { right; right; left. repeat constructor. }
  split; [exact H | exact (proj1 reject_filters_first _ _ _ _ _ H)].
Defined.

(** C2.  For a line that passes the reject filters, a font size of at least
    [max(average_size * 1.1, common_size * 1.05)] makes
    [is_heading_candidate] return true; so ["Background"] at size 18 with
    no style flag, in a corpus of average size 12.0 and common size 11.0,
    is a heading. *)
Theorem size_rule_accepts :
  (forall text font_size font_flags avg_font_size common_font_size,
      ~ reject_filters (strip text) ->
      py_ge font_size
        (py_max (py_mul avg_font_size (num 1.1)) (py_mul common_font_size (num 1.05)))
      = true ->
      is_heading_candidate text font_size font_flags avg_font_size common_font_size
      = true) /\
  is_heading_candidate (py "Background") (num 18) 0 (num 12.0) (num 11.0) = true.
Proof.
  split; [| reflexivity].
  intros text fs fl avg common Hpass Hsize.
  rewrite is_heading_candidate_kept.
  - unfold size_threshold. rewrite Hsize. reflexivity.
  - destruct (rejected (strip text)) eqn:E; [| reflexivity].
    exfalso. apply Hpass, rejected_iff, E.
Qed.

Lemma size_rule_accepts_witness :
  ~ reject_filters (strip (py "Background")) /\
  py_ge (num 18) (py_max (py_mul (num 12.0) (num 1.1)) (py_mul (num 11.0) (num 1.05)))
  = true /\
  is_heading_candidate (py "Background") (num 18) 0 (num 12.0) (num 11.0) = true.
Proof.
  assert (H : ~ reject_filters (strip (py "Background"))).
  { intros R. apply rejected_iff in R. vm_compute in R. discriminate R. }
  split; [exact H |]. split; [reflexivity |].
  exact (proj1 size_rule_accepts (py "Background") (num 18) 0%Z (num 12.0) (num 11.0)
           H eq_refl).
Defined.

(* ----------------------------------------------------------------- *)
(** ** Lines of letters and spaces *)

Definition ascii_letter (c : ascii) : bool :=
  in_range 65 90 (code c) || in_range 97 122 (code c).

Definition space : ascii := chr " ".

Lemma letter_matches_A_Z c :
  ascii_letter c = true -> item_matches true A_Z c = true.
Proof.
  destruct c as [[] [] [] [] [] [] [] []]; intros H; try discriminate H; reflexivity.
Qed.

Lemma letter_not_special c :
  ascii_letter c = true -> number_or_special_char c = false.
Proof.
  destruct c as [[] [] [] [] [] [] [] []]; intros H; try discriminate H; reflexivity.
Qed.

Lemma letter_not_punctuation c :
  ascii_letter c = true -> ~ In c non_heading_punctuation.
Proof.
  destruct c as [[] [] [] [] [] [] [] []]; intros H; try discriminate H;
    simpl; intros K; repeat (destruct K as [K | K]; [discriminate K |]); exact K.
Qed.

(** The ALL CAPS pattern, matched with [re.IGNORECASE], takes every string
    of at least two letters and spaces that starts with a letter. *)
Lemma all_caps_pattern_matches c s :
  ascii_letter c = true ->
  s <> [] ->
  Forall (fun a => ascii_letter a = true \/ a = space) s ->
  existsb (fun p => re_match p (c :: s) true) heading_patterns = true.
Proof.
  intros Hc Hs Hall.
  apply existsb_exists.
  exists (Pattern "^([A-Z][A-Z\s]+)$"
            (OneOf [A_Z] >> Plus (OneOf [A_Z; ItemSpace]))%re true).
  split; [simpl; tauto |].
  unfold re_match; cbn [dollar body]. apply orb_true_iff. left.
  apply fullmatch_iff.
  change (c :: s) with ([c] ++ s). constructor.
  - constructor. cbn [accepts existsb]. rewrite (letter_matches_A_Z _ Hc). reflexivity.
  - destruct s as [| a s]; [congruence |].
    apply plus_of_accepted.
    eapply Forall_impl; [| exact Hall].
    intros b [Hb | ->]; cbn [accepts existsb].
    + rewrite (letter_matches_A_Z _ Hb). reflexivity.
    + reflexivity.
Qed.

(** C9.  A line whose trimmed text is made of ASCII letters and spaces,
    begins with a letter and has between 3 and 200 characters is a heading
    candidate whatever its font size, its style flags and its letter case
    are: the patterns are matched with [re.IGNORECASE]. *)
Theorem letters_and_spaces_accepted :
  forall text c rest font_size font_flags avg_font_size common_font_size,
    strip text = c :: rest ->
    ascii_letter c = true ->
    Forall (fun a => ascii_letter a = true \/ a = space) rest ->
    3 <= List.length (strip text) <= 200 ->
    is_heading_candidate text font_size font_flags avg_font_size common_font_size
    = true.
Proof.
  intros text c rest fs fl avg common E Hc Hall Hlen.
  rewrite is_heading_candidate_kept.
  - rewrite E, (all_caps_pattern_matches c rest Hc); [| | exact Hall].
    + rewrite orb_true_r. reflexivity.
    + rewrite E in Hlen. destruct rest; [simpl in Hlen; lia | discriminate].
  - destruct (rejected (strip text)) eqn:R; [| reflexivity].
    exfalso. apply rejected_iff in R.
    destruct R as [R | [R | [R | (front & p & Ep & Hp)]]]; try lia.
    + rewrite E in R. inversion R; subst.
      rewrite (letter_not_special _ Hc) in *. discriminate.
    + assert (Hl : ascii_letter p = true).
      { assert (Hin : In p (c :: rest)) by (rewrite <- E, Ep; apply in_elt).
        destruct Hin as [<- | Hin]; [exact Hc |].
        rewrite Forall_forall in Hall. destruct (Hall _ Hin) as [Hp' | ->]; [exact Hp' |].
        apply strip_last in Ep. discriminate Ep. }
      exact (letter_not_punctuation _ Hl Hp).
Qed.

Lemma letters_and_spaces_accepted_witness :
  strip (py "  the quick brown fox ") = chr "t" :: py "he quick brown fox" /\
  is_heading_candidate (py "  the quick brown fox ") (num 0) 0 (num 12) (num 12) = true.
Proof.
  split; [reflexivity |].
  apply (letters_and_spaces_accepted (py "  the quick brown fox ")
           (chr "t") (py "he quick brown fox") (num 0) 0%Z (num 12) (num 12)).
  - reflexivity.
  - reflexivity.
  - repeat (constructor; [first [left; reflexivity | right; reflexivity] |]).
    constructor.
  - simpl. lia.
Defined.

(* ----------------------------------------------------------------- *)
(** ** The order of numbers

    Away from NaN the comparisons of binary64 values are those of a total
    preorder; [rank] sends a number to a triple of integers whose
    lexicographic order is that preorder. *)

Definition rank (x : number) : Z * Z * Z :=
  match x with
  | S754_zero _ | S754_nan => (0, 0, 0)
  | S754_infinity true => (-2, 0, 0)
  | S754_infinity false => (2, 0, 0)
  | S754_finite false m e => (1, e, Zpos m)
  | S754_finite true m e => (-1, - e, Zneg m)
  end%Z.

Definition lex_lt (a b : Z * Z * Z) : Prop :=
  let '(a1, a2, a3) := a in
  let '(b1, b2, b3) := b in
  (a1 < b1 \/ (a1 = b1 /\ (a2 < b2 \/ (a2 = b2 /\ a3 < b3))))%Z.

Lemma SFcompare_rank x y :
  is_nan x = false -> is_nan y = false ->
  exists c, SFcompare x y = Some c /\
            match c with
            | Lt => lex_lt (rank x) (rank y)
            | Eq => rank x = rank y
            | Gt => lex_lt (rank y) (rank x)
            end.
Proof.
  destruct x as [sx | sx | | sx mx ex], y as [sy | sy | | sy my ey];
    try discriminate; intros _ _; simpl;
    try (destruct sx); try (destruct sy); simpl;
    try (eexists; split; [reflexivity |]; simpl; (reflexivity || lia)).
  - destruct (Z.compare_spec ex ey) as [E | E | E].
    + subst ey. change (Pos.compare_cont Eq mx my) with (Pos.compare mx my).
      destruct (Pos.compare_spec mx my) as [M | M | M];
        (eexists; split; [reflexivity |]); simpl; [congruence | lia | lia].
    + eexists; split; [reflexivity |]; simpl; lia.
    + eexists; split; [reflexivity |]; simpl; lia.
  - destruct (Z.compare_spec ex ey) as [E | E | E].
    + subst ey. change (Pos.compare_cont Eq mx my) with (Pos.compare mx my).
      destruct (Pos.compare_spec mx my) as [M | M | M];
        (eexists; split; [reflexivity |]); simpl; [congruence | lia | lia].
    + eexists; split; [reflexivity |]; simpl; lia.
    + eexists; split; [reflexivity |]; simpl; lia.
Qed.

Lemma lex_lt_irrefl a : ~ lex_lt a a.
Proof. destruct a as [[a1 a2] a3]. simpl. lia. Qed.

Lemma lex_lt_trans a b c : lex_lt a b -> lex_lt b c -> lex_lt a c.
Proof.
  destruct a as [[a1 a2] a3], b as [[b1 b2] b3], c as [[c1 c2] c3]. simpl. lia.
Qed.

Lemma lex_lt_total a b : lex_lt a b \/ a = b \/ lex_lt b a.
Proof.
  destruct a as [[a1 a2] a3], b as [[b1 b2] b3]. simpl.
  destruct (Z.lt_total a1 b1) as [H | [H | H]]; [lia | | lia].
  destruct (Z.lt_total a2 b2) as [H2 | [H2 | H2]]; [lia | | lia].
  destruct (Z.lt_total a3 b3) as [H3 | [H3 | H3]]; [lia | | lia].
  right; left. congruence.
Qed.

Section NumberOrder.
Variables x y : number.
Hypothesis Hx : is_nan x = false.
Hypothesis Hy : is_nan y = false.

Lemma py_lt_rank : py_lt x y = true <-> lex_lt (rank x) (rank y).
Proof.
  unfold py_lt, SFltb.
  destruct (SFcompare_rank x y Hx Hy) as (c & -> & H).
  destruct c; split; intros K; try discriminate; try reflexivity; try exact H.
  - rewrite H in K. elim (lex_lt_irrefl _ K).
  - elim (lex_lt_irrefl _ (lex_lt_trans _ _ _ H K)).
Qed.

Lemma py_eq_rank : py_eq x y = true <-> rank x = rank y.
Proof.
  unfold py_eq, SFeqb.
  destruct (SFcompare_rank x y Hx Hy) as (c & -> & H).
  destruct c; split; intros K; try discriminate; try reflexivity; try exact H.
  - rewrite K in H. elim (lex_lt_irrefl _ H).
  - rewrite K in H. elim (lex_lt_irrefl _ H).
Qed.

Lemma py_le_rank : py_le x y = true <-> lex_lt (rank x) (rank y) \/ rank x = rank y.
Proof.
  unfold py_le, SFleb.
  destruct (SFcompare_rank x y Hx Hy) as (c & -> & H).
  destruct c; split; intros K; try discriminate; try reflexivity; auto.
  destruct K as [K | K].
  - elim (lex_lt_irrefl _ (lex_lt_trans _ _ _ H K)).
  - rewrite K in H. elim (lex_lt_irrefl _ H).
Qed.
End NumberOrder.

(** A comparison that holds has no NaN on either side. *)
Lemma py_lt_not_nan x y : py_lt x y = true -> is_nan x = false /\ is_nan y = false.
Proof.
  unfold py_lt, SFltb.
  destruct x, y; simpl; try discriminate; auto.
Qed.

Lemma py_le_not_nan x y : py_le x y = true -> is_nan x = false /\ is_nan y = false.
Proof.
  unfold py_le, SFleb.
  destruct x, y; simpl; try discriminate; auto.
Qed.

Lemma py_eq_not_nan x y : py_eq x y = true -> is_nan x = false /\ is_nan y = false.
Proof.
  unfold py_eq, SFeqb.
  destruct x, y; simpl; try discriminate; auto.
Qed.

Lemma py_eq_refl x : is_nan x = false -> py_eq x x = true.
Proof. intros H. apply py_eq_rank; auto. Qed.

Lemma py_eq_sym x y : py_eq x y = py_eq y x.
Proof.
  destruct (py_eq x y) eqn:E; symmetry.
  - destruct (py_eq_not_nan _ _ E). apply py_eq_rank; auto.
    symmetry. apply (py_eq_rank x y); auto.
  - destruct (py_eq y x) eqn:E'; [| reflexivity].
    destruct (py_eq_not_nan _ _ E'). rewrite <- E. symmetry.
    apply py_eq_rank; auto. symmetry. apply (py_eq_rank y x); auto.
Qed.

Lemma py_eq_trans x y z : py_eq x y = true -> py_eq y z = true -> py_eq x z = true.
Proof.
  intros H1 H2.
  destruct (py_eq_not_nan _ _ H1), (py_eq_not_nan _ _ H2).
  apply py_eq_rank; auto.
  apply py_eq_rank in H1, H2; auto. congruence.
Qed.

(** Numbers that are equal have the same hash. *)
Lemma py_eq_hash x y : py_eq x y = true -> hash_number x = hash_number y.
Proof.
  intros H. destruct (py_eq_not_nan _ _ H) as [Hx Hy].
  apply py_eq_rank in H; auto.
  destruct x as [sx | [] | | [] mx ex], y as [sy | [] | | [] my ey];
    try discriminate; simpl in H; try reflexivity; try congruence.
  - injection H as H1 H2. assert (ex = ey) by lia. congruence.
Qed.

Lemma py_le_false_gt x y :
  is_nan x = false -> is_nan y = false -> py_le x y = false -> py_lt y x = true.
Proof.
  intros Hx Hy H. apply py_lt_rank; auto.
  destruct (lex_lt_total (rank x) (rank y)) as [K | [K | K]]; [| | exact K].
  - rewrite (proj2 (py_le_rank x y Hx Hy)) in H; [discriminate | auto].
  - rewrite (proj2 (py_le_rank x y Hx Hy)) in H; [discriminate | auto].
Qed.

Lemma py_lt_false_ge x y :
  is_nan x = false -> is_nan y = false -> py_lt x y = false -> py_le y x = true.
Proof.
  intros Hx Hy H. apply py_le_rank; auto.
  destruct (lex_lt_total (rank x) (rank y)) as [K | [K | K]]; auto.
  rewrite (proj2 (py_lt_rank x y Hx Hy)) in H; [discriminate | auto].
Qed.

Lemma py_lt_trans x y z : py_lt x y = true -> py_lt y z = true -> py_lt x z = true.
Proof.
  intros H1 H2.
  destruct (py_lt_not_nan _ _ H1), (py_lt_not_nan _ _ H2).
  apply py_lt_rank; auto. apply py_lt_rank in H1, H2; auto.
  eapply lex_lt_trans; eauto.
Qed.

(* ----------------------------------------------------------------- *)
(** ** The title *)

(** The lines and the spans of a page in the order in which the loops visit
    them. *)
Definition block_lines (b : Block) : list Line :=
  match lines b with
  | Some ls => ls
  | None => []
  end.

Definition page_lines (p : Page) : list Line := flat_map block_lines (blocks p).

Definition page_spans (p : Page) : list Span := flat_map spans (page_lines p).

Lemma title_scan_lines ls : forall st,
  fold_left title_scan_line ls st = fold_left title_scan_span (flat_map spans ls) st.
Proof.
  induction ls as [| l ls IH]; intros st; simpl; [reflexivity |].
  rewrite fold_left_app, IH. reflexivity.
Qed.

Lemma title_scan_blocks bs : forall st,
  fold_left title_scan_block bs st =
  fold_left title_scan_span (flat_map spans (flat_map block_lines bs)) st.
Proof.
  induction bs as [| b bs IH]; intros st; simpl; [reflexivity |].
  rewrite flat_map_app, fold_left_app, IH. unfold title_scan_block, block_lines.
  destruct (lines b); [rewrite title_scan_lines |]; reflexivity.
Qed.

(** Spans that are not larger than the current one change nothing. *)
Lemma title_scan_keep ss t m :
  (forall s, In s ss -> py_gt (span_size s) m = false) ->
  fold_left title_scan_span ss (t, m) = (t, m).
Proof.
  induction ss as [| s ss IH]; intros H; simpl; [reflexivity |].
  unfold title_scan_span at 2. simpl. rewrite (H s (or_introl eq_refl)).
  apply IH. intros s' Hs'. apply H. right. exact Hs'.
Qed.

(** The scan ends on the first span of the largest size above the start. *)
Lemma title_scan_selects front sel back : forall t m,
  py_gt (span_size sel) m = true ->
  (forall s, In s front -> py_ge (span_size s) (span_size sel) = false) ->
  (forall s, In s back -> py_gt (span_size s) (span_size sel) = false) ->
  fold_left title_scan_span (front ++ sel :: back) (t, m)
  = (strip (span_text sel), span_size sel).
Proof.
  induction front as [| s front IH]; intros t m Hsel Hfront Hback; simpl.
  - unfold title_scan_span at 2. simpl. rewrite Hsel.
    apply title_scan_keep. exact Hback.
  - unfold title_scan_span at 2. simpl.
    destruct (py_gt (span_size s) m) eqn:E.
    + apply IH; [| intros; apply Hfront; right; assumption | exact Hback].
      unfold py_gt in *.
      destruct (py_lt_not_nan _ _ E) as [_ Hs], (py_lt_not_nan _ _ Hsel) as [_ Hl].
      apply py_le_false_gt; auto.
      apply (Hfront s). left. reflexivity.
    + apply IH; [exact Hsel | intros; apply Hfront; right; assumption | exact Hback].
Qed.

(** [sel] is the first span of [ss] with the largest size, and that size is
    above 0. *)
Definition first_largest (ss : list Span) (sel : Span) : Prop :=
  exists front back,
    ss = front ++ sel :: back /\
    py_gt (span_size sel) (num 0) = true /\
    (forall s, In s front -> py_ge (span_size s) (span_size sel) = false) /\
    (forall s, In s back -> py_gt (span_size s) (span_size sel) = false).

(** The title as claim C4 words it: a metadata title that is blank after
    trimming counts as absent, and the first span of the largest size is
    taken whatever that size is. *)
Definition claimed_largest_span (ss : list Span) : option Span :=
  match ss with
  | [] => None
  | s :: rest =>
      Some (fold_left (fun best s' => if py_gt (span_size s') (span_size best)
                                      then s' else best) rest s)
  end.

Definition claimed_first_page_title (doc : Document) : str :=
  match pages doc with
  | [] => untitled
  | p :: _ =>
      match claimed_largest_span (page_spans p) with
      | Some s => if 3 <? List.length (strip (span_text s))
                  then strip (span_text s) else untitled
      | None => untitled
      end
  end.

Definition claimed_title (doc : Document) : str :=
  match metadata_title doc with
  | Some t => if negb (str_eqb (strip t) []) then strip t
              else claimed_first_page_title doc
  | None => claimed_first_page_title doc
  end.

Definition one_span_page (t : string) (size : number) : Page :=
  mkPage [mkBlock (Some [mkLine [mkSpan (py t) size 0]])].

(** C4.  The code does not do what the claim says for a metadata title
    that is blank after trimming.  The test [if metadata.get('title')] comes
    before [strip()]: a title of three spaces passes it and is returned
    trimmed, as the empty string, and the first page is never scanned.  The
    claim asks for the title of the first page there, which is what the
    code returns for the same pages when the metadata title is absent. *)
Theorem title_blank_metadata :
  extract_title_from_document
    (mkDocument (Some (py "   ")) [one_span_page "Annual Report" (num 24)]) = [] /\
  claimed_title
    (mkDocument (Some (py "   ")) [one_span_page "Annual Report" (num 24)])
  = py "Annual Report" /\
  extract_title_from_document
    (mkDocument None [one_span_page "Annual Report" (num 24)]) = py "Annual Report".
Proof. repeat split; reflexivity. Qed.

(** X20.  A metadata title that is not blank is returned trimmed, whatever
    the pages hold. *)
Theorem metadata_title_trimmed :
  forall doc t,
    metadata_title doc = Some t -> strip t <> [] ->
    extract_title_from_document doc = strip t.
Proof.
  intros doc t Ht Hne. unfold extract_title_from_document. rewrite Ht.
  destruct t; [elim Hne; reflexivity | reflexivity].
Qed.

Lemma metadata_title_trimmed_witness :
  strip (py "  Field Notes ") <> [] /\
  extract_title_from_document
    (mkDocument (Some (py "  Field Notes ")) [one_span_page "Annual Report" (num 24)])
  = py "Field Notes".
Proof.
  assert (H : strip (py "  Field Notes ") <> []) by discriminate.
  split; [exact H |].
  exact (metadata_title_trimmed
           (mkDocument (Some (py "  Field Notes ")) [one_span_page "Annual Report" (num 24)])
           (py "  Field Notes ") eq_refl H).
Defined.

(** X21.  With a metadata title that is absent or empty, the first page
    decides.  The scan starts from size 0 and replaces its choice only by a
    strictly larger span: when no span of the page has a size above 0 the
    title is ["Untitled Document"]; otherwise the first span of the largest
    size is selected; its trimmed text is the title when it has more than
    3 characters, and the title is ["Untitled Document"] when it has not.
    A document without pages gets ["Untitled Document"]. *)
Theorem first_largest_span_title :
  forall doc,
    metadata_title doc = None \/ metadata_title doc = Some [] ->
    (pages doc = [] -> extract_title_from_document doc = untitled) /\
    (forall first_page rest, pages doc = first_page :: rest ->
       ((forall s, In s (page_spans first_page) ->
                   py_gt (span_size s) (num 0) = false) ->
        extract_title_from_document doc = untitled) /\
       (forall sel, first_largest (page_spans first_page) sel ->
          extract_title_from_document doc =
          if 3 <? List.length (strip (span_text sel))
          then strip (span_text sel) else untitled)).
Proof.
  intros doc Hmeta.
  assert (E : extract_title_from_document doc =
              match pages doc with
              | first_page :: _ =>
                  let largest_text :=
                    fst (fold_left title_scan_span (page_spans first_page) ([], num 0)) in
                  if negb (str_eqb largest_text []) && (3 <? List.length largest_text)
                  then largest_text else untitled
              | [] => untitled
              end).
  { unfold extract_title_from_document.
    destruct Hmeta as [-> | ->]; destruct (pages doc); try reflexivity;
      rewrite title_scan_blocks; reflexivity. }
  rewrite E. split; [intros ->; reflexivity |].
  intros p rest ->. cbv zeta. split.
  + intros H. rewrite title_scan_keep by exact H. reflexivity.
  + intros sel (front & back & -> & Hpos & Hfront & Hback).
    rewrite (title_scan_selects front sel back) by assumption.
    cbn [fst].
    destruct (3 <? List.length (strip (span_text sel))) eqn:L;
      [| rewrite andb_false_r; reflexivity].
    rewrite andb_true_r.
    destruct (str_eqb (strip (span_text sel)) []) eqn:N; [| reflexivity].
    apply str_eqb_nil in N. rewrite N in L. discriminate L.
Qed.

Definition report_first_page : Page :=
  mkPage [mkBlock None;
          mkBlock (Some [mkLine [mkSpan (py "Draft") (num 10) 0;
                                 mkSpan (py " Annual Report ") (num 24) 0];
                         mkLine [mkSpan (py "2024") (num 24) 0]])].

Lemma first_largest_span_title_witness :
  first_largest (page_spans report_first_page)
    (mkSpan (py " Annual Report ") (num 24) 0) /\
  extract_title_from_document (mkDocument (Some []) [report_first_page])
  = py "Annual Report".
Proof.
  assert (H : first_largest (page_spans report_first_page)
                (mkSpan (py " Annual Report ") (num 24) 0)).
  { exists [mkSpan (py "Draft") (num 10) 0], [mkSpan (py "2024") (num 24) 0].
    split; [reflexivity |]. split; [reflexivity |].
    split; intros s [<- | []]; reflexivity. }
  split; [exact H |].
  exact (proj2 (proj2 (first_largest_span_title
                         (mkDocument (Some []) [report_first_page])
                         (or_intror eq_refl))
                      report_first_page [] eq_refl)
           _ H).
Defined.

(* ----------------------------------------------------------------- *)
(** ** The collected lines *)

(** What a line contributes: its merged text, the largest span size and
    the union of the span flags. *)
Definition merged_text (l : Line) : str := List.concat (map span_text (spans l)).

Definition line_font_size (l : Line) : number :=
  fold_left py_max (map span_size (spans l)) (num 0).

Definition line_font_flags (l : Line) : Z :=
  fold_left Z.lor (map span_flags (spans l)) 0%Z.

Definition line_info (page_num : nat) (l : Line) : list TextInfo :=
  if negb (str_eqb (strip (merged_text l)) [])
  then [mkTextInfo (strip (merged_text l)) (line_font_size l) (line_font_flags l)
                   (page_num + 1)]
  else [].

Lemma merge_spans ss : forall t m f,
  fold_left merge_span ss (t, m, f) =
  (t ++ List.concat (map span_text ss),
   fold_left py_max (map span_size ss) m,
   fold_left Z.lor (map span_flags ss) f).
Proof.
  induction ss as [| s ss IH]; intros t m f; simpl.
  - rewrite app_nil_r. reflexivity.
  - rewrite IH, <- app_assoc. reflexivity.
Qed.

Lemma fold_left_appending {A B : Type} (f : list B -> A -> list B) (g : A -> list B) :
  (forall acc x, f acc x = acc ++ g x) ->
  forall l acc, fold_left f l acc = acc ++ flat_map g l.
Proof.
  intros H. induction l as [| x l IH]; intros acc; simpl.
  - rewrite app_nil_r. reflexivity.
  - rewrite IH, H, <- app_assoc. reflexivity.
Qed.

Lemma flat_map_nested {A B C : Type} (f : A -> list B) (g : B -> list C) l :
  flat_map g (flat_map f l) = flat_map (fun x => flat_map g (f x)) l.
Proof.
  induction l as [| x l IH]; simpl; [reflexivity |].
  rewrite flat_map_app, IH. reflexivity.
Qed.

Lemma collect_line_eq n acc l : collect_line n acc l = acc ++ line_info n l.
Proof.
  unfold collect_line, line_info, merged_text, line_font_size, line_font_flags.
  rewrite merge_spans. simpl.
  destruct (negb _); [reflexivity | rewrite app_nil_r; reflexivity].
Qed.

Lemma collect_block_eq n acc b :
  collect_block n acc b = acc ++ flat_map (line_info n) (block_lines b).
Proof.
  unfold collect_block, block_lines. destruct (lines b).
  - apply fold_left_appending. intros. apply collect_line_eq.
  - simpl. rewrite app_nil_r. reflexivity.
Qed.

Lemma collect_page_eq acc np :
  collect_page acc np = acc ++ flat_map (line_info (fst np)) (page_lines (snd np)).
Proof.
  destruct np as [n p]. unfold collect_page, page_lines. simpl.
  rewrite (fold_left_appending _ (fun b => flat_map (line_info n) (block_lines b))).
  - rewrite flat_map_nested. reflexivity.
  - intros. apply collect_block_eq.
Qed.

(** The collected lines are those of the pages [0 .. min(len(doc), 50) - 1],
    in order. *)
Lemma collect_text_info_eq doc :
  collect_text_info doc =
  flat_map (fun np => flat_map (line_info (fst np)) (page_lines (snd np)))
    (combine (seq 0 (Nat.min (List.length (pages doc)) 50)) (pages doc)).
Proof.
  unfold collect_text_info.
  rewrite (fold_left_appending _ _ collect_page_eq). reflexivity.
Qed.

Lemma collected_page doc i :
  In i (collect_text_info doc) ->
  1 <= info_page i <= Nat.min (List.length (pages doc)) 50.
Proof.
  rewrite collect_text_info_eq. intros H.
  apply in_flat_map in H as ([n p] & Hnp & H). simpl in H.
  apply in_combine_l, in_seq in Hnp.
  apply in_flat_map in H as (l & _ & H).
  unfold line_info in H. destruct (negb _); [| contradiction].
  destruct H as [<- | []]. simpl. lia.
Qed.

(** The line sizes are never NaN: a span size only replaces the running
    maximum when it compares greater. *)
Lemma fold_py_max_not_nan xs : forall m,
  is_nan m = false -> is_nan (fold_left py_max xs m) = false.
Proof.
  induction xs as [| x xs IH]; intros m H; simpl; [exact H |].
  apply IH. unfold py_max, py_gt.
  destruct (py_lt m x) eqn:E; [| exact H].
  apply (py_lt_not_nan _ _ E).
Qed.

Lemma collected_not_nan doc i :
  In i (collect_text_info doc) -> is_nan (info_font_size i) = false.
Proof.
  rewrite collect_text_info_eq. intros H.
  apply in_flat_map in H as ([n p] & _ & H). simpl in H.
  apply in_flat_map in H as (l & _ & H).
  unfold line_info in H. destruct (negb _); [| contradiction].
  destruct H as [<- | []]. simpl. apply fold_py_max_not_nan. reflexivity.
Qed.

(* ----------------------------------------------------------------- *)
(** ** Sorting *)

Lemma insert_by_perm {A : Type} (lt : A -> A -> bool) x l :
  Permutation (insert_by lt x l) (x :: l).
Proof.
  induction l as [| y l IH]; simpl; [reflexivity |].
  destruct (lt y x); [| reflexivity].
  rewrite IH. apply perm_swap.
Qed.

Lemma py_sorted_perm {A : Type} (lt : A -> A -> bool) l :
  Permutation (py_sorted lt l) l.
Proof.
  induction l as [| x l IH]; simpl; [reflexivity |].
  rewrite insert_by_perm, IH. reflexivity.
Qed.

(** Insertion keeps a list sorted for every relation [le] that holds
    between [x] and [y] as soon as one of [lt x y] and [lt y x] decides
    it. *)
Section InsertSorted.
Context {A : Type} (lt : A -> A -> bool) (le : A -> A -> Prop) (ok : A -> Prop).
Hypothesis lt_le : forall x y, lt x y = true -> le x y.
Hypothesis not_lt_le : forall x y, ok x -> ok y -> lt y x = false -> le x y.

Lemma insert_by_sorted x l :
  ok x -> Forall ok l -> Sorted le l -> Sorted le (insert_by lt x l).
Proof.
  intros Hx Hl Hs. induction l as [| y l IH]; simpl.
  - constructor; constructor.
  - inversion Hl as [| ? ? Hy Hl']; subst.
    inversion Hs as [| ? ? Hs' Hhd]; subst.
    destruct (lt y x) eqn:E.
    + constructor; [apply IH; assumption |].
      destruct l as [| z l]; simpl.
      * constructor. apply lt_le, E.
      * destruct (lt z x) eqn:E'.
        -- constructor. inversion Hhd; subst. assumption.
        -- constructor. apply lt_le, E.
    + constructor; [exact Hs |]. constructor. apply not_lt_le; assumption.
Qed.

Lemma py_sorted_sorted l : Forall ok l -> Sorted le (py_sorted lt l).
Proof.
  induction l as [| x l IH]; intros H; simpl; [constructor |].
  inversion H; subst.
  apply insert_by_sorted; [assumption | | apply IH; assumption].
  apply Forall_forall. intros y Hy.
  rewrite Forall_forall in H3. apply H3.
  apply (Permutation_in _ (py_sorted_perm lt l)). exact Hy.
Qed.
End InsertSorted.

(** Insertion keeps the elements of a class in their order, when no
    element of a class is below another one of it. *)
Section InsertStable.
Context {A : Type} (lt : A -> A -> bool) (cls : A -> bool).
Hypothesis cls_not_lt : forall x y, cls x = true -> cls y = true -> lt y x = false.

Lemma insert_by_stable x l :
  filter cls (insert_by lt x l) = filter cls (x :: l).
Proof.
  induction l as [| y l IH]; [reflexivity |].
  simpl insert_by. destruct (lt y x) eqn:E; [| reflexivity].
  simpl filter in *. rewrite IH.
  destruct (cls x) eqn:Cx, (cls y) eqn:Cy; try reflexivity.
  rewrite (cls_not_lt x y Cx Cy) in E. discriminate E.
Qed.

Lemma py_sorted_stable l : filter cls (py_sorted lt l) = filter cls l.
Proof.
  induction l as [| x l IH]; [reflexivity |].
  simpl py_sorted. rewrite insert_by_stable. simpl. rewrite IH. reflexivity.
Qed.
End InsertStable.

(* ----------------------------------------------------------------- *)
(** ** The pass that removes repeated texts *)

Lemma existsb_str_eqb t seen : existsb (str_eqb t) seen = true <-> In t seen.
Proof.
  rewrite existsb_exists. split.
  - intros (x & Hx & E). apply str_eqb_eq in E. subst. exact Hx.
  - intros H. exists t. split; [exact H | apply str_eqb_eq; reflexivity].
Qed.

Lemma unique_pass_in l : forall seen h,
  In h (unique_pass seen l) -> In h l /\ ~ In (text h) seen.
Proof.
  induction l as [| a l IH]; intros seen h H; simpl in H; [contradiction |].
  destruct (existsb (str_eqb (text a)) seen) eqn:E.
  - destruct (IH _ _ H). split; [right |]; assumption.
  - destruct H as [<- | H].
    + split; [left; reflexivity |].
      intros K. apply existsb_str_eqb in K. congruence.
    + destruct (IH _ _ H) as [H1 H2]. split; [right; exact H1 |].
      intros K. apply H2. right. exact K.
Qed.

Lemma unique_pass_nodup l : forall seen, NoDup (map text (unique_pass seen l)).
Proof.
  induction l as [| a l IH]; intros seen; simpl; [constructor |].
  destruct (existsb (str_eqb (text a)) seen); [apply IH |].
  simpl. constructor; [| apply IH].
  intros K. apply in_map_iff in K as (h & E & K).
  apply unique_pass_in in K as [_ K]. apply K. left. symmetry. exact E.
Qed.

(** The first heading of each text is kept. *)
Lemma unique_pass_keeps_first front h back : forall seen,
  ~ In (text h) seen ->
  ~ In (text h) (map text front) ->
  exists kept later,
    unique_pass seen (front ++ h :: back) = kept ++ h :: later /\
    incl kept front.
Proof.
  induction front as [| a front IH]; intros seen Hseen Hfront; simpl.
  - destruct (existsb (str_eqb (text h)) seen) eqn:E.
    + apply existsb_str_eqb in E. contradiction.
    + exists [], (unique_pass (text h :: seen) back). split; [reflexivity |].
      intros x [].
  - simpl in Hfront.
    destruct (existsb (str_eqb (text a)) seen).
    + destruct (IH seen Hseen) as (kept & later & -> & Hk); [tauto |].
      exists kept, later. split; [reflexivity |].
      intros x Hx. right. apply Hk, Hx.
    + destruct (IH (text a :: seen)) as (kept & later & -> & Hk).
      * simpl. intros [K | K]; [apply Hfront; left; exact K | contradiction].
      * tauto.
      * exists (a :: kept), later. split; [reflexivity |].
        intros x [<- | Hx]; [left; reflexivity | right; apply Hk, Hx].
Qed.

(** A heading is dropped only when its text came before. *)
Lemma unique_pass_covers l : forall seen h,
  In h l -> In (text h) seen \/ In (text h) (map text (unique_pass seen l)).
Proof.
  induction l as [| a l IH]; intros seen h H; [contradiction |].
  simpl. destruct (existsb (str_eqb (text a)) seen) eqn:E.
  - destruct H as [<- | H]; [left; apply existsb_str_eqb, E | apply IH, H].
  - destruct H as [<- | H]; [right; left; reflexivity |].
    destruct (IH (text a :: seen) h H) as [[K | K] | K].
    + right. left. exact K.
    + left. exact K.
    + right. right. exact K.
Qed.

(* ----------------------------------------------------------------- *)
(** ** The order of the outline *)

(** The order by which the headings are sorted: page first, font size
    next, both ascending. *)
Definition key_le (a b : Heading) : Prop :=
  page a < page b \/
  (page a = page b /\ py_le (font_size a) (font_size b) = true).

(** The headings that have the sort key of [k]. *)
Definition same_sort_key (k h : Heading) : bool :=
  Nat.eqb (page h) (page k) && py_eq (font_size h) (font_size k).

Definition size_ok (h : Heading) : Prop := is_nan (font_size h) = false.

Lemma py_lt_le x y : py_lt x y = true -> py_le x y = true.
Proof.
  intros H. destruct (py_lt_not_nan _ _ H).
  apply py_le_rank; auto. left. apply py_lt_rank; auto.
Qed.

Lemma py_eq_le x y : py_eq x y = true -> py_le x y = true.
Proof.
  intros H. destruct (py_eq_not_nan _ _ H).
  apply py_le_rank; auto. right. apply py_eq_rank; auto.
Qed.

Lemma py_le_trans x y z : py_le x y = true -> py_le y z = true -> py_le x z = true.
Proof.
  intros H1 H2.
  destruct (py_le_not_nan _ _ H1), (py_le_not_nan _ _ H2).
  apply py_le_rank; auto. apply py_le_rank in H1, H2; auto.
  destruct H1 as [H1 | H1], H2 as [H2 | H2].
  - left. eapply lex_lt_trans; eauto.
  - left. rewrite <- H2. exact H1.
  - left. rewrite H1. exact H2.
  - right. congruence.
Qed.

Lemma py_eq_not_lt x y : py_eq x y = true -> py_lt x y = false.
Proof.
  intros H. destruct (py_eq_not_nan _ _ H).
  destruct (py_lt x y) eqn:E; [| reflexivity].
  apply py_lt_rank in E; auto. apply py_eq_rank in H; auto.
  rewrite H in E. elim (lex_lt_irrefl _ E).
Qed.

Lemma key_lt_le x y : key_lt x y = true -> key_le x y.
Proof.
  unfold key_lt, key_le.
  destruct (Nat.eqb_spec (page x) (page y)) as [E | E]; simpl.
  - destruct (py_eq (font_size x) (font_size y)); simpl; [discriminate |].
    intros H. right. split; [exact E | apply py_lt_le, H].
  - intros H. apply Nat.ltb_lt in H. left. exact H.
Qed.

Lemma key_not_lt_le x y : size_ok x -> size_ok y -> key_lt y x = false -> key_le x y.
Proof.
  unfold key_lt, key_le, size_ok. intros Hx Hy.
  destruct (Nat.eqb_spec (page y) (page x)) as [E | E]; simpl.
  - destruct (py_eq (font_size y) (font_size x)) eqn:Q; simpl.
    + intros _. right. split; [auto |]. apply py_eq_le. rewrite py_eq_sym. exact Q.
    + intros H. right. split; [auto |]. apply py_lt_false_ge; assumption.
  - intros H. apply Nat.ltb_ge in H. left. lia.
Qed.

Lemma key_le_trans x y z : key_le x y -> key_le y z -> key_le x z.
Proof.
  unfold key_le. intros [H1 | [H1 L1]] [H2 | [H2 L2]]; try (left; lia).
  right. split; [lia | eapply py_le_trans; eauto].
Qed.

Lemma same_sort_key_not_lt k x y :
  same_sort_key k x = true -> same_sort_key k y = true -> key_lt y x = false.
Proof.
  unfold same_sort_key, key_lt. intros Hx Hy.
  apply andb_prop in Hx as [Px Sx], Hy as [Py Sy].
  apply Nat.eqb_eq in Px, Py.
  replace (Nat.eqb (page y) (page x)) with true
    by (symmetry; apply Nat.eqb_eq; congruence).
  simpl. rewrite (py_eq_trans _ _ _ Sy); [reflexivity |].
  rewrite py_eq_sym. exact Sx.
Qed.

Lemma sorted_headings_ordered hs :
  Forall size_ok hs -> StronglySorted key_le (py_sorted key_lt hs).
Proof.
  intros H. apply Sorted_StronglySorted.
  - intros x y z. apply key_le_trans.
  - apply (py_sorted_sorted key_lt key_le size_ok key_lt_le key_not_lt_le). exact H.
Qed.

(* ----------------------------------------------------------------- *)
(** ** From the outline back to the collected lines *)

Lemma candidate_heading_info infos avg common h :
  In h (candidate_headings infos avg common) ->
  exists i, In i infos /\
            is_heading_candidate (info_text i) (info_font_size i) (info_font_flags i)
              avg common = true /\
            h = mkHeading [] (info_text i) (info_page i) (info_font_size i)
                          (info_font_flags i).
Proof.
  unfold candidate_headings. intros H.
  apply in_flat_map in H as (i & Hi & H).
  destruct (is_heading_candidate _ _ _ _ _) eqn:E; [| contradiction].
  destruct H as [<- | []]. exists i. auto.
Qed.

Lemma assign_levels_in hs h :
  In h (assign_levels hs) ->
  exists h0, In h0 hs /\ text h = text h0 /\ page h = page h0 /\
             font_size h = font_size h0 /\
             level h = determine_heading_level h0 hs.
Proof.
  unfold assign_levels. intros H.
  apply in_map_iff in H as (h0 & <- & H). exists h0. simpl. auto.
Qed.

Lemma unique_headings_in hs h : In h (unique_headings hs) -> In h hs.
Proof.
  unfold unique_headings. intros H.
  apply unique_pass_in in H as [H _].
  apply (Permutation_in _ (py_sorted_perm key_lt hs)). exact H.
Qed.

Lemma outline_item_info doc e :
  In e (outline (extract_outline doc)) ->
  exists i, In i (collect_text_info doc) /\
            item_text e = info_text i /\ item_page e = info_page i.
Proof.
  unfold extract_outline, to_outline. simpl. intros H.
  apply in_map_iff in H as (h & <- & H).
  apply unique_headings_in, assign_levels_in in H as (h0 & H & Et & Ep & _).
  apply candidate_heading_info in H as (i & Hi & _ & ->).
  exists i. simpl in *. auto.
Qed.

Lemma to_outline_texts hs : map item_text (to_outline hs) = map text hs.
Proof. unfold to_outline. rewrite map_map. reflexivity. Qed.

(** C6.  The resolver sorts the levelled candidates by page, then font
    size, both ascending and with equal keys left in their order, and then
    keeps the first candidate of each text.  For the two ["Intro"]
    candidates of pages 3 and 1 the outline is the item of page 1.  No two
    items of an outline have the same text. *)
Theorem outline_resolution :
  (forall headings,
      Permutation (py_sorted key_lt headings) headings /\
      (Forall size_ok headings -> StronglySorted key_le (py_sorted key_lt headings)) /\
      (forall k, filter (same_sort_key k) (py_sorted key_lt headings)
                 = filter (same_sort_key k) headings) /\
      (forall front h back,
          py_sorted key_lt headings = front ++ h :: back ->
          ~ In (text h) (map text front) ->
          exists kept later,
            unique_headings headings = kept ++ h :: later /\ incl kept front) /\
      (forall h, In h headings ->
                 In (text h) (map item_text (to_outline (unique_headings headings)))) /\
      (forall e, In e (to_outline (unique_headings headings)) ->
                 exists h, In h headings /\
                           e = mkOutlineItem (level h) (text h) (page h)) /\
      NoDup (map item_text (to_outline (unique_headings headings)))) /\
  (forall level3 level1 flags3 flags1,
      to_outline (unique_headings
                    [mkHeading level3 (py "Intro") 3 (num 16) flags3;
                     mkHeading level1 (py "Intro") 1 (num 20) flags1])
      = [mkOutlineItem level1 (py "Intro") 1]) /\
  (forall doc, NoDup (map item_text (outline (extract_outline doc)))).
Proof.
  split; [| split].
  - intros hs. repeat split.
    + apply py_sorted_perm.
    + apply sorted_headings_ordered.
    + intros k. apply py_sorted_stable. apply same_sort_key_not_lt.
    + intros front h back E Hfront. unfold unique_headings. rewrite E.
      apply unique_pass_keeps_first; [intros [] | exact Hfront].
    + intros h Hh. rewrite to_outline_texts. unfold unique_headings.
      destruct (unique_pass_covers (py_sorted key_lt hs) [] h) as [[] | K]; [| exact K].
      apply (Permutation_in _ (Permutation_sym (py_sorted_perm key_lt hs))). exact Hh.
    + intros e He. unfold to_outline in He.
      apply in_map_iff in He as (h & <- & Hh).
      exists h. split; [apply unique_headings_in, Hh | reflexivity].
    + rewrite to_outline_texts. apply unique_pass_nodup.
  - intros. reflexivity.
  - intros doc. unfold extract_outline. simpl.
    rewrite to_outline_texts. apply unique_pass_nodup.
Qed.

Lemma outline_resolution_witness :
  Forall size_ok [mkHeading (py "H2") (py "Intro") 3 (num 16) 0;
                  mkHeading (py "H1") (py "Intro") 1 (num 20) 0] /\
  StronglySorted key_le
    (py_sorted key_lt [mkHeading (py "H2") (py "Intro") 3 (num 16) 0;
                       mkHeading (py "H1") (py "Intro") 1 (num 20) 0]).
Proof.
  assert (H : Forall size_ok [mkHeading (py "H2") (py "Intro") 3 (num 16) 0;
                              mkHeading (py "H1") (py "Intro") 1 (num 20) 0])
    by (repeat constructor).
  split; [exact H |].
  exact (proj1 (proj2 (proj1 outline_resolution _)) H).
Defined.

(* ----------------------------------------------------------------- *)
(** ** The page cap *)

Definition first_50_pages (doc : Document) : Document :=
  mkDocument (metadata_title doc) (firstn 50 (pages doc)).

Lemma collect_first_50 doc :
  collect_text_info (first_50_pages doc) = collect_text_info doc.
Proof.
  unfold collect_text_info, first_50_pages. cbn [pages].
  rewrite length_firstn.
  replace (Nat.min (Nat.min 50 (List.length (pages doc))) 50)
    with (Nat.min (List.length (pages doc)) 50) by lia.
  remember (Nat.min (List.length (pages doc)) 50) as n eqn:En.
  f_equal.
  rewrite (combine_firstn_l (seq 0 n) (pages doc)), length_seq.
  rewrite (combine_firstn_l (seq 0 n) (firstn 50 (pages doc))), length_seq.
  rewrite firstn_firstn. f_equal. f_equal. lia.
Qed.

Lemma title_first_50 doc :
  extract_title_from_document (first_50_pages doc) = extract_title_from_document doc.
Proof.
  unfold extract_title_from_document, first_50_pages. cbn [pages metadata_title].
  destruct (pages doc) as [| p l]; [reflexivity |].
  change (firstn 50 (p :: l)) with (p :: firstn 49 l). reflexivity.
Qed.

(** C7.  Only the first [min(N, 50)] pages of a document of [N] pages
    contribute lines, and every item of the outline has a page number
    between 1 and [min(N, 50)]. *)
Theorem page_bound :
  forall doc,
    collect_text_info doc = collect_text_info (first_50_pages doc) /\
    extract_outline doc = extract_outline (first_50_pages doc) /\
    (forall i, In i (collect_text_info doc) ->
               1 <= info_page i <= Nat.min (List.length (pages doc)) 50) /\
    (forall e, In e (outline (extract_outline doc)) ->
               1 <= item_page e <= Nat.min (List.length (pages doc)) 50).
Proof.
  intros doc. repeat split.
  - symmetry. apply collect_first_50.
  - unfold extract_outline. rewrite collect_first_50, title_first_50. reflexivity.
  - apply (collected_page doc i H).
  - apply (collected_page doc i H).
  - apply outline_item_info in H as (i & Hi & _ & ->). apply (collected_page doc i Hi).
  - apply outline_item_info in H as (i & Hi & _ & ->). apply (collected_page doc i Hi).
Qed.

(* ----------------------------------------------------------------- *)
(** ** Blank text *)

Lemma lstrip_nil_iff s : lstrip s = [] <-> Forall (fun c => isspace c = true) s.
Proof.
  induction s as [| c s IH]; simpl.
  - split; [constructor | reflexivity].
  - destruct (isspace c) eqn:E.
    + rewrite IH. split; [constructor; assumption | intros H; inversion H; assumption].
    + split; [discriminate | intros H; inversion H; congruence].
Qed.

Lemma strip_nil_iff s : strip s = [] <-> Forall (fun c => isspace c = true) s.
Proof.
  unfold strip, rstrip. split.
  - intros H. apply lstrip_nil_iff.
    apply (f_equal (@rev ascii)) in H. rewrite rev_involutive in H. simpl in H.
    apply lstrip_nil_iff in H.
    destruct (lstrip s) as [| c r] eqn:E; [reflexivity |].
    apply lstrip_head in E.
    apply Forall_rev in H. rewrite rev_involutive in H.
    inversion H; congruence.
  - intros H. apply lstrip_nil_iff in H. rewrite H. reflexivity.
Qed.

Lemma strip_concat_nil ts t :
  strip (List.concat ts) = [] -> In t ts -> strip t = [].
Proof.
  rewrite !strip_nil_iff. intros H Ht.
  rewrite Forall_forall in *. intros c Hc. apply H.
  apply in_concat. exists t. auto.
Qed.

Lemma flat_map_nil {A B : Type} (f : A -> list B) l x :
  flat_map f l = [] -> In x l -> f x = [].
Proof.
  induction l as [| a l IH]; simpl; [contradiction |].
  intros H [<- | Hx]; apply app_eq_nil in H as [H1 H2]; auto.
Qed.

Lemma title_scan_blank ss : forall m,
  (forall s, In s ss -> strip (span_text s) = []) ->
  fst (fold_left title_scan_span ss ([], m)) = [].
Proof.
  induction ss as [| s ss IH]; intros m H; simpl; [reflexivity |].
  unfold title_scan_span at 2. simpl.
  destruct (py_gt (span_size s) m).
  - rewrite (H s (or_introl eq_refl)). apply IH. intros; apply H; right; assumption.
  - apply IH. intros; apply H; right; assumption.
Qed.

(** When no line is collected, every span of the first page is blank. *)
Lemma no_lines_blank_first_page doc p rest s :
  collect_text_info doc = [] ->
  pages doc = p :: rest ->
  In s (page_spans p) -> strip (span_text s) = [].
Proof.
  rewrite collect_text_info_eq. intros H Hp Hs. rewrite Hp in H.
  change (Nat.min (List.length (p :: rest)) 50)
    with (S (Nat.min (List.length rest) 49)) in H.
  simpl in H. apply app_eq_nil in H as [H _].
  apply in_flat_map in Hs as (l & Hl & Hs).
  apply (flat_map_nil _ _ l) in H; [| exact Hl].
  unfold line_info in H.
  destruct (str_eqb (strip (merged_text l)) []) eqn:E; [| discriminate H].
  apply str_eqb_nil in E.
  apply (strip_concat_nil _ _ E). apply in_map. exact Hs.
Qed.

(** X22.  A document without any collected line, whose metadata title is
    absent or empty, is not an error: the average and the common font size
    default to 12, the title is ["Untitled Document"] and the outline is
    empty. *)
Theorem empty_corpus :
  forall doc,
    collect_text_info doc = [] ->
    metadata_title doc = None \/ metadata_title doc = Some [] ->
    average_font_size (map info_font_size (collect_text_info doc)) = num 12 /\
    most_common_font_size (map info_font_size (collect_text_info doc)) = num 12 /\
    extract_outline doc = mkOutline untitled [].
Proof.
  intros doc H Hmeta. unfold extract_outline. rewrite H. simpl.
  repeat split. f_equal.
  destruct (pages doc) as [| p rest] eqn:Hp.
  - unfold extract_title_from_document. rewrite Hp.
    destruct Hmeta as [-> | ->]; reflexivity.
  - unfold extract_title_from_document. rewrite Hp.
    rewrite title_scan_blocks.
    rewrite (title_scan_blank (page_spans p)).
    + destruct Hmeta as [-> | ->]; reflexivity.
    + intros s. apply (no_lines_blank_first_page doc p rest s H Hp).
Qed.

Definition blank_document : Document :=
  mkDocument None
    [mkPage [mkBlock None;
             mkBlock (Some [mkLine [mkSpan (py "  ") (num 10) 0;
                                    mkSpan (py " ") (num 14) 16];
                            mkLine []])]].

Lemma empty_corpus_witness :
  collect_text_info blank_document = [] /\
  extract_outline blank_document = mkOutline untitled [].
Proof.
  split; [reflexivity |].
  exact (proj2 (proj2 (empty_corpus blank_document eq_refl (or_introl eq_refl)))).
Defined.

(** The pages of [blank_document] under a metadata title of spaces. *)
Definition blank_titled_document : Document :=
  mkDocument (Some (py "   ")) (pages blank_document).

(** C8.  The code does not give the output the claim says for every empty
    corpus.  With no collected line the font sizes default to 12 and the
    outline is empty, but a metadata title that is blank after trimming is
    no usable title and is returned all the same, trimmed to the empty
    string: the output has the title [""], not ["Untitled Document"].  The
    defect is the one of C4. *)
Theorem empty_corpus_blank_title :
  collect_text_info blank_titled_document = [] /\
  average_font_size (map info_font_size (collect_text_info blank_titled_document))
  = num 12 /\
  most_common_font_size (map info_font_size (collect_text_info blank_titled_document))
  = num 12 /\
  extract_outline blank_titled_document = mkOutline [] [] /\
  extract_outline blank_document = mkOutline untitled [].
Proof. repeat split; reflexivity. Qed.

(* ----------------------------------------------------------------- *)
(** ** The float of a positive integer

    [float(n)] of a positive integer is a positive number or [inf]: the
    rounding keeps at least the leading bit of the mantissa. *)

Section FloatOfPositive.
Local Open Scope Z_scope.

Lemma shr_1_m mrs : 0 <= shr_m mrs -> shr_m (shr_1 mrs) = shr_m mrs / 2.
Proof.
  destruct mrs as [m r s]. simpl. intros H.
  destruct m as [| p | p]; [reflexivity | | lia].
  rewrite <- Z.div2_div. destruct p; reflexivity.
Qed.

Lemma iter_shr_1_m p : forall mrs,
  0 <= shr_m mrs -> shr_m (iter_pos shr_1 p mrs) = shr_m mrs / 2 ^ Zpos p.
Proof.
  induction p as [p IH | p IH |]; intros mrs H; simpl iter_pos.
  - assert (H1 : 0 <= shr_m (shr_1 mrs))
      by (rewrite shr_1_m by exact H; apply Z.div_pos; lia).
    assert (H2 : 0 <= shr_m (iter_pos shr_1 p (shr_1 mrs)))
      by (rewrite IH by exact H1; apply Z.div_pos; lia).
    rewrite IH by exact H2. rewrite IH by exact H1. rewrite shr_1_m by exact H.
    rewrite !Z.div_div by lia. f_equal.
    assert (E : Z.pos p~1 = Z.pos p + Z.pos p + 1) by lia.
    rewrite E, !Z.pow_add_r by lia. change (2 ^ 1) with 2. lia.
  - assert (H2 : 0 <= shr_m (iter_pos shr_1 p mrs))
      by (rewrite IH by exact H; apply Z.div_pos; lia).
    rewrite IH by exact H2. rewrite IH by exact H.
    rewrite !Z.div_div by lia. f_equal.
    assert (E : Z.pos p~0 = Z.pos p + Z.pos p) by lia.
    rewrite E, Z.pow_add_r by lia. reflexivity.
  - rewrite shr_1_m by exact H. reflexivity.
Qed.

Lemma digits2_pos_lower p : 2 ^ (Zpos (digits2_pos p) - 1) <= Zpos p.
Proof.
  induction p as [p IH | p IH |]; simpl digits2_pos.
  - rewrite Pos2Z.inj_succ.
    replace (Z.succ (Zpos (digits2_pos p)) - 1)
      with ((Zpos (digits2_pos p) - 1) + 1) by lia.
    rewrite Z.pow_add_r by lia. lia.
  - rewrite Pos2Z.inj_succ.
    replace (Z.succ (Zpos (digits2_pos p)) - 1)
      with ((Zpos (digits2_pos p) - 1) + 1) by lia.
    rewrite Z.pow_add_r by lia. lia.
  - simpl. lia.
Qed.

Lemma shr_fexp_pos m e l :
  0 < m -> SpecFloat.emin prec emax <= e ->
  0 < shr_m (fst (shr_fexp prec emax m e l)) /\ e <= snd (shr_fexp prec emax m e l).
Proof.
  intros Hm He. unfold shr_fexp, shr.
  assert (Hr : shr_m (shr_record_of_loc m l) = m) by (destruct l as [| []]; reflexivity).
  destruct (fexp prec emax (Zdigits2 m + e) - e) as [| n | n] eqn:E;
    simpl; rewrite ?Hr; try lia.
  rewrite iter_shr_1_m by lia. rewrite Hr.
  destruct m as [| p | p]; try lia. simpl Zdigits2 in E.
  unfold fexp, SpecFloat.emin, prec, emax in *.
  assert (Hn : Zpos n <= Zpos (digits2_pos p) - 1) by lia.
  split; [| lia].
  assert (2 ^ Zpos n <= Zpos p).
  { etransitivity; [| apply digits2_pos_lower]. apply Z.pow_le_mono_r; lia. }
  apply Z.div_str_pos. lia.
Qed.

Lemma binary_round_aux_pos sx m e l :
  0 < m -> SpecFloat.emin prec emax <= e ->
  (exists m' e', binary_round_aux prec emax sx m e l = S754_finite sx m' e') \/
  binary_round_aux prec emax sx m e l = S754_infinity sx.
Proof.
  intros Hm He. unfold binary_round_aux.
  destruct (shr_fexp_pos m e l Hm He) as [H1 H2].
  destruct (shr_fexp prec emax m e l) as [mrs' e']. simpl in H1, H2.
  assert (H3 : 0 < round_nearest_even (shr_m mrs') (loc_of_shr_record mrs')).
  { unfold round_nearest_even. destruct (loc_of_shr_record mrs') as [| []]; try lia.
    destruct (Z.even (shr_m mrs')); lia. }
  destruct (shr_fexp_pos _ e' loc_Exact H3 ltac:(lia)) as [H4 _].
  destruct (shr_fexp prec emax _ e' loc_Exact) as [mrs'' e'']. simpl in H4.
  destruct (shr_m mrs'') as [| p | p]; try lia.
  destruct (e'' <=? emax - prec); [left; eauto | right; reflexivity].
Qed.

Lemma number_of_nat_positive n :
  (exists m e, number_of_nat (S n) = S754_finite false m e) \/
  number_of_nat (S n) = S754_infinity false.
Proof.
  unfold number_of_nat.
  change (Z.of_nat (S n)) with (Zpos (Pos.of_succ_nat n)).
  unfold binary_normalize, binary_round.
  set (p := Pos.of_succ_nat n).
  destruct (shl_align p 0 (fexp prec emax (Zpos (digits2_pos p) + 0))) as [mz ez] eqn:E.
  apply binary_round_aux_pos; [lia |].
  unfold shl_align in E.
  destruct (fexp prec emax (Zpos (digits2_pos p) + 0) - 0) eqn:F;
    injection E as <- <-; unfold fexp, SpecFloat.emin, prec, emax in *; lia.
Qed.
End FloatOfPositive.

(* ----------------------------------------------------------------- *)
(** ** A corpus whose sizes are all 0 *)

Lemma py_sum_zeros n : py_sum (repeat (num 0) n) = num 0.
Proof.
  unfold py_sum. induction n as [| n IH]; [reflexivity | exact IH].
Qed.

Lemma average_of_zeros n : average_font_size (repeat (num 0) (S n)) = num 0.
Proof.
  unfold average_font_size. cbn [repeat].
  change (num 0 :: repeat (num 0) n) with (repeat (num 0) (S n)).
  rewrite py_sum_zeros, repeat_length.
  destruct (number_of_nat_positive n) as [(m & e & ->) | ->]; reflexivity.
Qed.

(** The set built from one 0, and from any number of them. *)
Definition set_of_zero : setobject := set_add_key empty_set (num 0).

Lemma set_of_zeros n :
  fold_left set_add_key (repeat (num 0) n) set_of_zero = set_of_zero.
Proof.
  induction n as [| n IH]; [reflexivity |].
  cbn [repeat fold_left].
  replace (set_add_key set_of_zero (num 0)) with set_of_zero by (vm_compute; reflexivity).
  exact IH.
Qed.

Lemma py_set_zeros n : py_set (repeat (num 0) (S n)) = [num 0].
Proof.
  unfold py_set. cbn [repeat fold_left].
  change (set_add_key empty_set (num 0)) with set_of_zero.
  rewrite set_of_zeros. vm_compute. reflexivity.
Qed.

Lemma most_common_of_zeros n : most_common_font_size (repeat (num 0) (S n)) = num 0.
Proof.
  unfold most_common_font_size. rewrite py_set_zeros. reflexivity.
Qed.

Lemma all_equal_repeat {A : Type} (x : A) l :
  (forall y, In y l -> y = x) -> l = repeat x (List.length l).
Proof.
  induction l as [| a l IH]; intros H; simpl; [reflexivity |].
  rewrite (H a (or_introl eq_refl)). f_equal.
  apply IH. intros y Hy. apply H. right. exact Hy.
Qed.

(** C10.  When every collected line has font size 0, the average and the
    common font size are 0, the threshold [max(0 * 1.1, 0 * 1.05)] is 0,
    and the size rule accepts every line that passes the reject filters. *)
Theorem zero_sizes_accept_all :
  forall all_text_info,
    all_text_info <> [] ->
    (forall i, In i all_text_info -> info_font_size i = num 0) ->
    average_font_size (map info_font_size all_text_info) = num 0 /\
    most_common_font_size (map info_font_size all_text_info) = num 0 /\
    size_threshold (average_font_size (map info_font_size all_text_info))
                   (most_common_font_size (map info_font_size all_text_info)) = num 0 /\
    (forall i, In i all_text_info ->
       ~ reject_filters (strip (info_text i)) ->
       py_ge (info_font_size i)
         (size_threshold (average_font_size (map info_font_size all_text_info))
                         (most_common_font_size (map info_font_size all_text_info)))
       = true /\
       is_heading_candidate (info_text i) (info_font_size i) (info_font_flags i)
         (average_font_size (map info_font_size all_text_info))
         (most_common_font_size (map info_font_size all_text_info)) = true).
Proof.
  intros infos Hne Hzero.
  assert (E : map info_font_size infos = repeat (num 0) (List.length infos)).
  { rewrite <- (length_map info_font_size). apply all_equal_repeat.
    intros y Hy. apply in_map_iff in Hy as (i & <- & Hi). apply Hzero, Hi. }
  destruct infos as [| i0 infos]; [congruence |].
  rewrite E. cbn [List.length].
  rewrite average_of_zeros, most_common_of_zeros.
  repeat split.
  - rewrite (Hzero i H). reflexivity.
  - rewrite is_heading_candidate_kept.
    + rewrite (Hzero i H). reflexivity.
    + destruct (rejected (strip (info_text i))) eqn:R; [| reflexivity].
      exfalso. apply H0, rejected_iff, R.
Qed.

(** The line of the witness is no heading under an ordinary profile. *)
Lemma zero_sizes_accept_all_witness :
  ~ reject_filters (strip (py "see table 4, row 2")) /\
  is_heading_candidate (py "see table 4, row 2") (num 0) 0
    (average_font_size [num 0; num 0]) (most_common_font_size [num 0; num 0]) = true /\
  is_heading_candidate (py "see table 4, row 2") (num 0) 0 (num 12) (num 12) = false.
Proof.
  assert (H : ~ reject_filters (strip (py "see table 4, row 2"))).
  { intros R. apply rejected_iff in R. vm_compute in R. discriminate R. }
  split; [exact H |]. split; [| reflexivity].
  refine (proj2 (proj2 (proj2 (proj2
    (zero_sizes_accept_all
       [mkTextInfo (py "see table 4, row 2") (num 0) 0 1;
        mkTextInfo (py "12.") (num 0) 0 2] _ _))) _ (or_introl eq_refl) H)).
  - discriminate.
  - intros i [<- | [<- | []]]; reflexivity.
Defined.

(* ----------------------------------------------------------------- *)
(** ** Probing a hash table *)

(** The slots a probe visits, in order, and the first of them that ends
    the probe. *)
Fixpoint first_hit (t : list (option setentry)) (same : setentry -> bool)
    (path : list nat) : option (nat * bool) :=
  match path with
  | [] => None
  | j :: rest =>
      match slot t j with
      | None => Some (j, false)
      | Some e => if same e then Some (j, true) else first_hit t same rest
      end
  end.

Definition run_slots (mask i : Z) : list nat :=
  seq (Z.to_nat i)
      (S (Z.to_nat (if (i + LINEAR_PROBES <=? mask)%Z then LINEAR_PROBES else 0%Z))).

Fixpoint probe_path (fuel : nat) (mask i perturb : Z) : list nat :=
  match fuel with
  | O => []
  | S fuel' =>
      run_slots mask i ++
      probe_path fuel' mask
        (Z.land (i * 5 + 1 + Z.shiftr perturb PERTURB_SHIFT) mask)
        (Z.shiftr perturb PERTURB_SHIFT)
  end.

Definition path_of (mask hash : Z) : list nat :=
  probe_path (probe_rounds mask) mask (Z.land hash mask) (hash mod 2 ^ 64).

Lemma first_hit_app t same p q :
  first_hit t same (p ++ q) =
  match first_hit t same p with
  | Some r => Some r
  | None => first_hit t same q
  end.
Proof.
  induction p as [| j p IH]; simpl; [reflexivity |].
  destruct (slot t j) as [e |]; [| reflexivity].
  destruct (same e); [reflexivity | exact IH].
Qed.

Lemma probe_run_hit t same probes : forall i,
  probe_run t same i probes = first_hit t same (seq i (S probes)).
Proof.
  induction probes as [| n IH]; intros i; simpl.
  - destruct (slot t i) as [e |]; [| reflexivity]. destruct (same e); reflexivity.
  - destruct (slot t i) as [e |]; [| reflexivity].
    destruct (same e); [reflexivity |]. rewrite IH. reflexivity.
Qed.

Lemma probe_loop_hit t mask same fuel : forall i perturb,
  probe_loop fuel t mask same i perturb =
  first_hit t same (probe_path fuel mask i perturb).
Proof.
  induction fuel as [| n IH]; intros i perturb; cbn [probe_loop probe_path];
    [reflexivity |].
  rewrite first_hit_app. unfold run_slots. rewrite <- probe_run_hit.
  destruct (probe_run t same _ _); [reflexivity | apply IH].
Qed.

Lemma probe_hit t mask same hash :
  probe t mask same hash = first_hit t same (path_of mask hash).
Proof. apply probe_loop_hit. Qed.

(** Tables *)

Lemma slot_set_slot_same t j e : j < List.length t -> slot (set_slot t j e) j = Some e.
Proof.
  revert j. induction t as [| s t IH]; intros j H; simpl in *; [lia |].
  destruct j; [reflexivity |]. apply IH. lia.
Qed.

Lemma slot_set_slot_other t j e i : i <> j -> slot (set_slot t j e) i = slot t i.
Proof.
  revert j i. induction t as [| s t IH]; intros j i H; simpl.
  - reflexivity.
  - destruct j, i; try reflexivity; [congruence |]. apply IH. congruence.
Qed.

Lemma length_set_slot t j e : List.length (set_slot t j e) = List.length t.
Proof.
  revert j. induction t as [| s t IH]; intros j; simpl; [reflexivity |].
  destruct j; simpl; [reflexivity | rewrite IH; reflexivity].
Qed.

Lemma slot_beyond t j : List.length t <= j -> slot t j = None.
Proof. intros H. unfold slot. apply nth_overflow. exact H. Qed.

Lemma in_entries t e : In e (entries t) <-> exists j, slot t j = Some e.
Proof.
  unfold entries. rewrite in_flat_map. split.
  - intros (s & Hs & He). destruct s as [e' |]; [| contradiction].
    destruct He as [<- | []].
    apply (In_nth _ _ None) in Hs as (j & _ & Hj). exists j. exact Hj.
  - intros (j & Hj). exists (Some e). split; [| left; reflexivity].
    destruct (Nat.lt_ge_cases j (List.length t)) as [L | L].
    + rewrite <- Hj. apply nth_In. exact L.
    + rewrite slot_beyond in Hj by exact L. discriminate.
Qed.

Lemma entries_set_slot t j e :
  slot t j = None -> j < List.length t ->
  Permutation (entries (set_slot t j e)) (e :: entries t).
Proof.
  revert j. induction t as [| s t IH]; intros j Hj L; simpl in *; [lia |].
  destruct j.
  - unfold slot in Hj. simpl in Hj. subst s. reflexivity.
  - unfold entries in *. simpl. rewrite (IH j); [| exact Hj | lia].
    destruct s; simpl; [apply perm_swap | reflexivity].
Qed.

(** A table that is not full has an unused slot. *)
Lemma unused_slot t :
  List.length (entries t) < List.length t ->
  exists j, j < List.length t /\ slot t j = None.
Proof.
  induction t as [| s t IH]; simpl; [lia |].
  destruct s as [e |].
  - unfold entries. simpl. intros H.
    destruct IH as (j & Hj & E); [unfold entries; lia |].
    exists (S j). split; [lia | exact E].
  - intros _. exists 0. split; [lia | reflexivity].
Qed.

(** What a probe finds *)

Lemma first_hit_unused t same p j :
  first_hit t same p = Some (j, false) -> slot t j = None /\ In j p.
Proof.
  induction p as [| a p IH]; simpl; [discriminate |].
  destruct (slot t a) as [e |] eqn:E.
  - destruct (same e); [discriminate |]. intros H. destruct (IH H). auto.
  - intros H. injection H as <-. auto.
Qed.

Lemma first_hit_active t same p j :
  first_hit t same p = Some (j, true) ->
  exists e, slot t j = Some e /\ same e = true.
Proof.
  induction p as [| a p IH]; simpl; [discriminate |].
  destruct (slot t a) as [e |] eqn:E; [| discriminate].
  destruct (same e) eqn:S; [| exact IH].
  intros H. injection H as <-. eauto.
Qed.

Lemma first_hit_total t same p j :
  In j p -> slot t j = None -> first_hit t same p <> None.
Proof.
  induction p as [| a p IH]; simpl; [contradiction |].
  intros [-> | H] E.
  - rewrite E. discriminate.
  - destruct (slot t a) as [e |]; [| discriminate].
    destruct (same e); [discriminate | auto].
Qed.

(** Filling an unused slot does not disturb a probe that ended on an entry. *)
Lemma first_hit_after_fill t same p j j' e :
  slot t j = None ->
  first_hit t same p = Some (j', true) ->
  first_hit (set_slot t j e) same p = Some (j', true).
Proof.
  intros E. induction p as [| a p IH]; simpl; [discriminate |].
  destruct (slot t a) as [e0 |] eqn:Ea; [| discriminate].
  assert (a <> j) by congruence.
  rewrite slot_set_slot_other by assumption. rewrite Ea.
  destruct (same e0); auto.
Qed.

(** A probe that ended on an unused slot finds the entry put there. *)
Lemma first_hit_filled t same p j e :
  first_hit t same p = Some (j, false) ->
  j < List.length t -> same e = true ->
  first_hit (set_slot t j e) same p = Some (j, true).
Proof.
  intros H L S. induction p as [| a p IH]; simpl in *; [discriminate |].
  destruct (slot t a) as [e0 |] eqn:Ea.
  - destruct (same e0) eqn:S0; [discriminate |].
    assert (a <> j).
    { intros ->. destruct (first_hit_unused _ _ _ _ H) as [K _]. congruence. }
    rewrite slot_set_slot_other by assumption. rewrite Ea, S0. auto.
  - injection H as <-. rewrite slot_set_slot_same by exact L. rewrite S. reflexivity.
Qed.

(** Two tests that agree on the entries of the table probe alike. *)
Lemma first_hit_ext t same same' p :
  (forall e, In e (entries t) -> same e = same' e) ->
  first_hit t same p = first_hit t same' p.
Proof.
  intros H. induction p as [| a p IH]; simpl; [reflexivity |].
  destruct (slot t a) as [e |] eqn:E; [| reflexivity].
  rewrite <- (H e) by (apply in_entries; eauto).
  destruct (same e); auto.
Qed.

Arguments probe : simpl never.
Arguments probe_loop : simpl never.
Arguments path_of : simpl never.
Arguments set_insert_clean : simpl never.
Arguments set_table_resize : simpl never.

(* ----------------------------------------------------------------- *)
(** ** The jumps of the probe sequence

    Once the perturbation has run out, a probe jumps from slot [i] to slot
    [(5 * i + 1) mod 2 ^ k].  This map runs through all the [2 ^ k] slots
    before it comes back: [4 * i + 1] is multiplied by 5 at each jump, and
    the order of 5 modulo [2 ^ (k + 2)] is [2 ^ k]. *)

Section ProbeJumps.
Local Open Scope Z_scope.

Lemma five_power_minus_one (d : positive) :
exists j m, 0 <= j /\ 5 ^ Zpos d - 1 = 2 ^ (j + 2) * (2 * m + 1) /\ (2 ^ j | Zpos d).
Proof.
assert (Hdouble : forall p j m,
           0 <= j -> 5 ^ Zpos p - 1 = 2 ^ (j + 2) * (2 * m + 1) ->
           5 ^ Zpos p~0 - 1 =
           2 ^ (j + 3) * (2 * (m + 2 ^ j * (2 * m + 1) * (2 * m + 1)) + 1)).
{ intros p j m Hj E.
  assert (E5 : 5 ^ Zpos p~0 = 5 ^ Zpos p * 5 ^ Zpos p).
  { replace (Zpos p~0) with (Zpos p + Zpos p) by lia. apply Z.pow_add_r; lia. }
  assert (E2 : 2 ^ (j + 2) = 4 * 2 ^ j).
  { rewrite Z.pow_add_r by lia. change (2 ^ 2) with 4. lia. }
  assert (E3 : 2 ^ (j + 3) = 8 * 2 ^ j).
  { rewrite Z.pow_add_r by lia. change (2 ^ 3) with 8. lia. }
  rewrite E5, E3. rewrite E2 in E.
  replace (5 ^ Zpos p) with (1 + 4 * 2 ^ j * (2 * m + 1)) by lia. ring. }
induction d as [p IH | p IH |].
- destruct IH as (j & m & Hj & E & _).
  pose proof (Hdouble p j m Hj E) as E2.
  exists 0, (5 * (2 ^ j * (2 * (m + 2 ^ j * (2 * m + 1) * (2 * m + 1)) + 1))).
  split; [lia |]. split; [| exists (Zpos p~1); lia].
  assert (E5 : 5 ^ Zpos p~1 = 5 * 5 ^ Zpos p~0).
  { replace (Zpos p~1) with (1 + Zpos p~0) by lia.
    rewrite Z.pow_add_r by lia. reflexivity. }
  assert (E3 : 2 ^ (j + 3) = 8 * 2 ^ j).
  { rewrite Z.pow_add_r by lia. change (2 ^ 3) with 8. lia. }
  rewrite E5. change (2 ^ (0 + 2)) with 4. rewrite E3 in E2. lia.
- destruct IH as (j & m & Hj & E & (q & Hq)).
  exists (j + 1), (m + 2 ^ j * (2 * m + 1) * (2 * m + 1)).
  split; [lia |]. split.
  + replace (j + 1 + 2) with (j + 3) by lia. apply Hdouble; assumption.
  + exists q. rewrite Z.pow_add_r by lia. change (2 ^ 1) with 2. lia.
- exists 0, 0. split; [lia |]. split; [reflexivity | exists 1; reflexivity].
Qed.

Lemma order_of_five k d :
0 <= k -> 0 < d -> (2 ^ (k + 2) | 5 ^ d - 1) -> 2 ^ k <= d.
Proof.
intros Hk Hd (c & Hc).
destruct d as [| p | p]; try lia.
destruct (five_power_minus_one p) as (j & m & Hj & E & (q & Hq)).
assert (Hkj : k <= j).
{ destruct (Z_le_gt_dec k j) as [L | G]; [exact L | exfalso].
  assert (E1 : 2 ^ (k + 2) = 2 ^ (j + 2) * (2 * 2 ^ (k - j - 1))).
  { replace (k + 2) with ((j + 2) + (1 + (k - j - 1))) by lia.
    rewrite !Z.pow_add_r by lia. change (2 ^ 1) with 2. ring. }
  rewrite E, E1 in Hc.
  assert (P : 0 < 2 ^ (j + 2)) by (apply Z.pow_pos_nonneg; lia).
  assert (2 * m + 1 = 2 * (c * 2 ^ (k - j - 1))).
  { apply (Z.mul_reg_l _ _ (2 ^ (j + 2))); [lia |]. rewrite Hc. ring. }
  lia. }
assert (P : 0 < 2 ^ j) by (apply Z.pow_pos_nonneg; lia).
assert (2 ^ k <= 2 ^ j) by (apply Z.pow_le_mono_r; lia).
assert (0 < q) by nia.
nia.
Qed.

Definition jump (k i : Z) : Z := (i * 5 + 1 + 0) mod 2 ^ k.

Lemma jump_range k i : 0 <= k -> 0 <= jump k i < 2 ^ k.
Proof.
intros Hk. unfold jump. apply Z.mod_pos_bound. apply Z.pow_pos_nonneg; lia.
Qed.

Lemma jumps_range k n i : 0 <= k -> 0 <= i < 2 ^ k -> 0 <= Nat.iter n (jump k) i < 2 ^ k.
Proof.
intros Hk Hi. destruct n as [| n]; [exact Hi |].
rewrite Nat.iter_succ. apply jump_range, Hk.
Qed.

Lemma jumps_times_five k n i :
0 <= k ->
(4 * Nat.iter n (jump k) i + 1) mod 2 ^ (k + 2) = (5 ^ Z.of_nat n * (4 * i + 1)) mod 2 ^ (k + 2).
Proof.
intros Hk.
assert (E4 : 2 ^ (k + 2) = 4 * 2 ^ k).
{ rewrite Z.pow_add_r by lia. change (2 ^ 2) with 4. lia. }
assert (P : 0 < 2 ^ k) by (apply Z.pow_pos_nonneg; lia).
induction n as [| n IH].
- cbn [Nat.iter]. change (Z.of_nat 0) with 0. rewrite Z.pow_0_r, Z.mul_1_l. reflexivity.
- rewrite Nat2Z.inj_succ, Z.pow_succ_r by lia. rewrite Nat.iter_succ.
  unfold jump at 1.
  set (X := Nat.iter n (jump k) i) in *.
  assert (S1 : 4 * ((X * 5 + 1 + 0) mod 2 ^ k) = (4 * (X * 5 + 1 + 0)) mod 2 ^ (k + 2)).
  { rewrite E4. symmetry. apply Z.mul_mod_distr_l; lia. }
  rewrite S1, Z.add_mod_idemp_l by lia.
  replace (4 * (X * 5 + 1 + 0) + 1) with (5 * (4 * X + 1)) by ring.
  rewrite <- (Z.mul_mod_idemp_r 5 (4 * X + 1)) by lia.
  rewrite IH, Z.mul_mod_idemp_r by lia.
  f_equal. ring.
Qed.

Lemma odd_coprime n m : 0 <= n -> Z.coprime (2 ^ n) (2 * m + 1).
Proof.
intros Hn. apply Z.coprime_pow_l; [exact Hn |].
apply Z.coprime_Bezout. exists (- m), 1. ring.
Qed.

(** No slot is met twice within [2 ^ k] jumps. *)
Lemma jumps_differ k i a b :
0 <= k -> (a < b)%nat -> Z.of_nat b - Z.of_nat a < 2 ^ k ->
Nat.iter a (jump k) i <> Nat.iter b (jump k) i.
Proof.
intros Hk Hab Hd E.
pose proof (jumps_times_five k a i Hk) as Ea.
pose proof (jumps_times_five k b i Hk) as Eb.
rewrite E, Eb in Ea.
assert (P : 0 < 2 ^ (k + 2)) by (apply Z.pow_pos_nonneg; lia).
assert (D : (2 ^ (k + 2) | 5 ^ Z.of_nat a * (4 * i + 1) * (5 ^ (Z.of_nat b - Z.of_nat a) - 1))).
{ replace (5 ^ Z.of_nat a * (4 * i + 1) * (5 ^ (Z.of_nat b - Z.of_nat a) - 1))
    with (5 ^ Z.of_nat b * (4 * i + 1) - 5 ^ Z.of_nat a * (4 * i + 1)).
  - apply Z.mod_divide; [lia |].
    rewrite Zminus_mod, Ea, Z.sub_diag. apply Z.mod_0_l. lia.
  - replace (Z.of_nat b) with (Z.of_nat a + (Z.of_nat b - Z.of_nat a)) at 1 by lia.
    rewrite Z.pow_add_r by lia. ring. }
apply Z.gauss in D.
- apply order_of_five in D; lia.
- apply Z.coprime_mul_r.
  + apply Z.coprime_pow_l; [lia |]. apply Z.coprime_pow_r; [lia |].
    apply Z.coprime_Bezout. exists (-2), 1. reflexivity.
  + replace (4 * i + 1) with (2 * (2 * i) + 1) by ring.
    apply odd_coprime. lia.
Qed.

Lemma NoDup_map_in {A B : Type} (f : A -> B) l :
(forall a b, In a l -> In b l -> f a = f b -> a = b) ->
NoDup l -> NoDup (map f l).
Proof.
intros Hinj H. induction H as [| x l Hx H IH]; simpl; constructor.
- intros K. apply in_map_iff in K as (y & E & Hy).
  apply Hx. rewrite <- (Hinj y x); [exact Hy | right; exact Hy | left; reflexivity | exact E].
- apply IH. intros a b Ha Hb. apply Hinj; right; assumption.
Qed.

(** Hence every slot is met within [2 ^ k] jumps. *)
Lemma jumps_cover k i j :
0 <= k -> 0 <= i < 2 ^ k -> 0 <= j < 2 ^ k ->
exists n, (n < Z.to_nat (2 ^ k))%nat /\ Nat.iter n (jump k) i = j.
Proof.
intros Hk Hi Hj.
set (N := Z.to_nat (2 ^ k)).
set (visited := map (fun n => Z.to_nat (Nat.iter n (jump k) i)) (seq 0 N)).
assert (Hnodup : NoDup visited).
{ unfold visited. apply NoDup_map_in; [| apply seq_NoDup].
  intros a b Ha Hb E. apply in_seq in Ha, Hb.
  pose proof (jumps_range k a i Hk Hi). pose proof (jumps_range k b i Hk Hi).
  apply Z2Nat.inj in E; try lia.
  destruct (Nat.lt_total a b) as [L | [L | L]]; [| exact L |].
  - exfalso. apply (jumps_differ k i a b Hk L); [lia | exact E].
  - exfalso. apply (jumps_differ k i b a Hk L); [lia | symmetry; exact E]. }
assert (Hincl : incl visited (seq 0 N)).
{ intros x Hx. unfold visited in Hx. apply in_map_iff in Hx as (n & <- & _).
  pose proof (jumps_range k n i Hk Hi). apply in_seq. lia. }
assert (Hall : incl (seq 0 N) visited).
{ apply NoDup_length_incl; [exact Hnodup | | exact Hincl].
  unfold visited. rewrite length_map. lia. }
assert (Hin : In (Z.to_nat j) visited) by (apply Hall, in_seq; lia).
unfold visited in Hin. apply in_map_iff in Hin as (n & E & Hn).
apply in_seq in Hn. exists n. split; [lia |].
pose proof (jumps_range k n i Hk Hi). apply Z2Nat.inj in E; lia.
Qed.

End ProbeJumps.

(* ----------------------------------------------------------------- *)
(** ** The slots of a probe sequence *)

Section ProbePath.
Local Open Scope Z_scope.
Variables k mask : Z.
Hypothesis Hk : 0 <= k.
Hypothesis Hmask : mask = 2 ^ k - 1.

Lemma land_mask x : Z.land x mask = x mod 2 ^ k.
Proof.
  replace mask with (Z.ones k) by (rewrite Z.ones_equiv; lia).
  apply Z.land_ones, Hk.
Qed.

Lemma land_mask_range x : 0 <= Z.land x mask <= mask.
Proof.
  rewrite land_mask.
  pose proof (Z.mod_pos_bound x (2 ^ k) (Z.pow_pos_nonneg 2 k ltac:(lia) Hk)). lia.
Qed.

Lemma run_slots_range i j :
  0 <= i <= mask -> In j (run_slots mask i) -> Z.of_nat j <= mask.
Proof.
  unfold run_slots, LINEAR_PROBES. intros Hi Hj. apply in_seq in Hj.
  destruct (i + 9 <=? mask) eqn:E.
  - apply Z.leb_le in E. lia.
  - lia.
Qed.

Lemma run_slots_first i : 0 <= i -> In (Z.to_nat i) (run_slots mask i).
Proof. intros Hi. unfold run_slots. apply in_seq. lia. Qed.

Lemma probe_path_range fuel : forall i perturb j,
  0 <= i <= mask -> In j (probe_path fuel mask i perturb) -> Z.of_nat j <= mask.
Proof.
  induction fuel as [| n IH]; intros i perturb j Hi Hj; cbn [probe_path] in Hj.
  - contradiction.
  - apply in_app_or in Hj as [Hj | Hj].
    + apply (run_slots_range i j Hi Hj).
    + apply (IH _ _ _ (land_mask_range _) Hj).
Qed.

(** Without perturbation the probe makes the jumps of [jump]. *)
Lemma probe_path_jumps fuel : forall i n,
  0 <= i <= mask -> (n < fuel)%nat ->
  In (Z.to_nat (Nat.iter n (jump k) i)) (probe_path fuel mask i 0).
Proof.
  induction fuel as [| m IH]; intros i n Hi Hn; [lia |].
  cbn [probe_path]. apply in_or_app. destruct n as [| n].
  - left. apply run_slots_first. cbn [Nat.iter]. simpl. lia.
  - right. rewrite Nat.iter_succ_r.
    change (Z.shiftr 0 PERTURB_SHIFT) with 0.
    rewrite land_mask. change ((i * 5 + 1 + 0) mod 2 ^ k) with (jump k i).
    apply IH; [| lia].
    pose proof (jump_range k i Hk). lia.
Qed.

(** The path after [a] rounds is a path of its own. *)
Lemma probe_path_later a b : forall i perturb,
  0 <= i <= mask ->
  exists i', 0 <= i' <= mask /\
    incl (probe_path b mask i' (Z.shiftr perturb (PERTURB_SHIFT * Z.of_nat a)))
         (probe_path (a + b) mask i perturb).
Proof.
  induction a as [| a IH]; intros i perturb Hi.
  - exists i. split; [exact Hi |].
    change (PERTURB_SHIFT * Z.of_nat 0) with 0. rewrite Z.shiftr_0_r.
    apply incl_refl.
  - destruct (IH (Z.land (i * 5 + 1 + Z.shiftr perturb PERTURB_SHIFT) mask)
                 (Z.shiftr perturb PERTURB_SHIFT) (land_mask_range _))
      as (i' & Hi' & Hincl).
    exists i'. split; [exact Hi' |].
    rewrite Z.shiftr_shiftr in Hincl by (unfold PERTURB_SHIFT; lia).
    replace (PERTURB_SHIFT * Z.of_nat (S a))
      with (PERTURB_SHIFT + PERTURB_SHIFT * Z.of_nat a) by (unfold PERTURB_SHIFT; lia).
    cbn [Nat.add probe_path].
    intros j Hj. apply in_or_app. right. apply Hincl, Hj.
Qed.

(** Every probe sequence visits every slot, and only slots. *)
Lemma path_of_range hash j : In j (path_of mask hash) -> Z.of_nat j <= mask.
Proof. unfold path_of. apply probe_path_range, land_mask_range. Qed.

Lemma path_of_covers hash j : Z.of_nat j < mask + 1 -> In j (path_of mask hash).
Proof.
  intros Hj. unfold path_of, probe_rounds.
  change (14 + Z.to_nat (mask + 1))%nat with (13 + (1 + Z.to_nat (mask + 1)))%nat.
  destruct (probe_path_later 13 (1 + Z.to_nat (mask + 1)) (Z.land hash mask)
              (hash mod 2 ^ 64) (land_mask_range _)) as (i' & Hi' & Hincl).
  apply Hincl.
  assert (E : Z.shiftr (hash mod 2 ^ 64) (PERTURB_SHIFT * Z.of_nat 13) = 0).
  { pose proof (Z.mod_pos_bound hash (2 ^ 64) eq_refl) as B.
    rewrite Z.shiftr_div_pow2 by (unfold PERTURB_SHIFT; lia).
    apply Z.div_small. change (PERTURB_SHIFT * Z.of_nat 13) with 65.
    assert (2 ^ 64 < 2 ^ 65) by reflexivity. lia. }
  rewrite E.
  destruct (jumps_cover k i' (Z.of_nat j) Hk) as (n & Hn & En); [lia | lia |].
  rewrite <- (Nat2Z.id j), <- En.
  apply probe_path_jumps; [exact Hi' |].
  replace (mask + 1) with (2 ^ k) by lia. lia.
Qed.
End ProbePath.

(* ----------------------------------------------------------------- *)
(** ** Well-formed tables *)

Definition entry_ok (e : setentry) : Prop :=
  is_nan (entry_key e) = false /\ entry_hash e = hash_number (entry_key e).

(** The test [set_add_entry] probes with for [e]. *)
Definition same_as (e : setentry) : setentry -> bool :=
  same_key (entry_key e) (entry_hash e).

Record table_ok (t : list (option setentry)) (mask : Z) : Prop := {
  ok_mask : exists k, (0 <= k)%Z /\ mask = (2 ^ k - 1)%Z;
  ok_length : Z.of_nat (List.length t) = (mask + 1)%Z;
  ok_entry : forall e, In e (entries t) -> entry_ok e;
  ok_found : forall j e, slot t j = Some e ->
               first_hit t (same_as e) (path_of mask (entry_hash e)) = Some (j, true)
}.

Lemma same_as_refl e : entry_ok e -> same_as e e = true.
Proof.
  intros [H _]. unfold same_as, same_key.
  rewrite Z.eqb_refl, py_eq_refl by exact H. reflexivity.
Qed.

Lemma same_as_sym a b : same_as a b = same_as b a.
Proof.
  unfold same_as, same_key. rewrite Z.eqb_sym, py_eq_sym. reflexivity.
Qed.

(** Entries that are the same probe with the same test. *)
Lemma same_as_trans a b c :
  same_as a b = true -> same_as a c = same_as b c.
Proof.
  unfold same_as, same_key. intros H.
  apply andb_prop in H as [Hh Hk]. apply Z.eqb_eq in Hh.
  rewrite Hh. destruct (entry_hash c =? entry_hash a)%Z; [simpl | reflexivity].
  destruct (py_eq (entry_key c) (entry_key b)) eqn:E.
  - apply (py_eq_trans _ _ _ E). exact Hk.
  - destruct (py_eq (entry_key c) (entry_key a)) eqn:E'; [| reflexivity].
    rewrite <- E. symmetry. apply (py_eq_trans _ _ _ E').
    rewrite py_eq_sym. exact Hk.
Qed.

Section Probing.
Lemma mask_nonneg t mask : table_ok t mask -> (0 <= mask)%Z.
Proof.
  intros H. destruct (ok_mask _ _ H) as (k & Hk & ->).
  pose proof (Z.pow_pos_nonneg 2 k). lia.
Qed.

(** A probe of a table that is not full ends. *)
Lemma probe_ends t mask same hash :
  table_ok t mask -> List.length (entries t) < List.length t ->
  exists j b, first_hit t same (path_of mask hash) = Some (j, b).
Proof.
  intros Hok Hfree.
  destruct (unused_slot t Hfree) as (j & Hj & E).
  destruct (first_hit t same (path_of mask hash)) as [[j' b] |] eqn:F; [eauto |].
  exfalso. revert F. apply (first_hit_total _ _ _ j); [| exact E].
  destruct (ok_mask _ _ Hok) as (k & Hk & Hm).
  apply (path_of_covers k mask Hk Hm).
  pose proof (ok_length _ _ Hok). lia.
Qed.

(** Putting an entry where its probe ended keeps the table well formed. *)
Lemma table_ok_fill t mask e j :
  table_ok t mask -> entry_ok e ->
  first_hit t (same_as e) (path_of mask (entry_hash e)) = Some (j, false) ->
  table_ok (set_slot t j e) mask /\
  Permutation (entries (set_slot t j e)) (e :: entries t).
Proof.
  intros Hok He F.
  destruct (first_hit_unused _ _ _ _ F) as [E Hin].
  assert (L : j < List.length t).
  { pose proof (ok_length _ _ Hok).
    destruct (ok_mask _ _ Hok) as (k & Hk & Hm).
    pose proof (path_of_range k mask Hk Hm _ _ Hin). lia. }
  pose proof (entries_set_slot t j e E L) as P.
  split; [| exact P]. constructor.
  - apply (ok_mask _ _ Hok).
  - rewrite length_set_slot. apply (ok_length _ _ Hok).
  - intros e' H'. apply (Permutation_in _ P) in H'.
    destruct H' as [<- | H']; [exact He | apply (ok_entry _ _ Hok), H'].
  - intros j' e' H'. destruct (Nat.eq_dec j' j) as [-> | N].
    + rewrite slot_set_slot_same in H' by exact L. injection H' as <-.
      apply first_hit_filled; [exact F | exact L | apply same_as_refl, He].
    + rewrite slot_set_slot_other in H' by exact N.
      apply first_hit_after_fill; [exact E | apply (ok_found _ _ Hok), H'].
Qed.

(** Entries in different slots are different. *)
Lemma slots_differ t mask i j a b :
  table_ok t mask -> slot t i = Some a -> slot t j = Some b ->
  same_as b a = true -> i = j.
Proof.
  intros Hok Ha Hb S.
  pose proof (ok_found _ _ Hok _ _ Ha) as Fa.
  pose proof (ok_found _ _ Hok _ _ Hb) as Fb.
  assert (Hh : entry_hash a = entry_hash b).
  { unfold same_as, same_key in S. apply andb_prop in S as [S _].
    apply Z.eqb_eq in S. exact S. }
  rewrite Hh in Fa.
  rewrite (first_hit_ext t (same_as a) (same_as b)) in Fa.
  - congruence.
  - intros e _. symmetry. rewrite same_as_sym in S. apply same_as_trans.
    rewrite same_as_sym. exact S.
Qed.

Lemma ordered_pairs_of_entries (R : setentry -> setentry -> Prop) t :
  (forall i j a b, i < j -> slot t i = Some a -> slot t j = Some b -> R a b) ->
  ForallOrdPairs R (entries t).
Proof.
  induction t as [| s t IH]; intros H; [constructor |].
  assert (IH' : ForallOrdPairs R (entries t)).
  { apply IH. intros i j a b L Ha Hb. apply (H (S i) (S j)); [lia | exact Ha | exact Hb]. }
  destruct s as [a |]; [| exact IH'].
  change (entries (Some a :: t)) with (a :: entries t).
  constructor; [| exact IH'].
  apply Forall_forall. intros b Hb. apply in_entries in Hb as (j & Hj).
  apply (H 0 (S j)); [lia | reflexivity | exact Hj].
Qed.

Definition all_differ (es : list setentry) : Prop :=
  ForallOrdPairs (fun a b => same_as b a = false) es.

Lemma entries_differ t mask : table_ok t mask -> all_differ (entries t).
Proof.
  intros Hok. apply ordered_pairs_of_entries.
  intros i j a b L Ha Hb.
  destruct (same_as b a) eqn:S; [| reflexivity].
  pose proof (slots_differ _ _ _ _ _ _ Hok Ha Hb S). lia.
Qed.

(** [set_insert_clean] of an entry that the table does not hold. *)
Lemma insert_clean_ok t mask e :
  table_ok t mask -> List.length (entries t) < List.length t ->
  entry_ok e ->
  (forall e', In e' (entries t) -> same_as e e' = false) ->
  table_ok (set_insert_clean t mask e) mask /\
  Permutation (entries (set_insert_clean t mask e)) (e :: entries t).
Proof.
  intros Hok Hfree He Hnew. unfold set_insert_clean.
  rewrite probe_hit.
  rewrite (first_hit_ext t _ (same_as e)) by (intros; symmetry; auto).
  destruct (probe_ends t mask (same_as e) (entry_hash e) Hok Hfree) as (j & b & F).
  rewrite F. destruct b.
  - apply first_hit_active in F as (e' & E & S).
    rewrite Hnew in S by (apply in_entries; eauto). discriminate S.
  - apply table_ok_fill; assumption.
Qed.

Lemma fold_insert_clean_ok mask es : forall t,
  table_ok t mask ->
  List.length (entries t) + List.length es <= List.length t ->
  Forall entry_ok es -> all_differ es ->
  (forall e e', In e es -> In e' (entries t) -> same_as e e' = false) ->
  table_ok (fold_left (fun t e => set_insert_clean t mask e) es t) mask /\
  Permutation (entries (fold_left (fun t e => set_insert_clean t mask e) es t))
              (es ++ entries t).
Proof.
  induction es as [| e es IH]; intros t Hok Hroom Hes Hdiff Hnew;
    cbn [fold_left List.length app] in *.
  - split; [exact Hok | reflexivity].
  - inversion Hes as [| ? ? He Hes']; subst.
    inversion Hdiff as [| ? ? Hd Hdiff']; subst.
    destruct (insert_clean_ok t mask e Hok) as [Hok1 P1];
      [lia | exact He | intros e' H'; apply Hnew; [left; reflexivity | exact H'] |].
    assert (Hlen : List.length (set_insert_clean t mask e) = List.length t).
    { apply Nat2Z.inj. rewrite (ok_length _ _ Hok1), (ok_length _ _ Hok). reflexivity. }
    pose proof (Permutation_length P1) as Hused. cbn [List.length] in Hused.
    destruct (IH (set_insert_clean t mask e)) as [Hok2 P2]; try assumption.
    + lia.
    + intros e2 e' H2 H'. apply (Permutation_in _ P1) in H'.
      destruct H' as [<- | H'].
      * rewrite Forall_forall in Hd. apply Hd, H2.
      * apply Hnew; [right; exact H2 | exact H'].
    + split; [exact Hok2 |].
      rewrite P2, P1. symmetry. apply Permutation_middle.
Qed.

Lemma slot_repeat_none n j : slot (repeat None n) j = None.
Proof.
  unfold slot. revert j. induction n as [| n IH]; intros [| j]; simpl; auto.
Qed.

Lemma entries_repeat_none n : entries (repeat None n) = [].
Proof. induction n as [| n IH]; [reflexivity | exact IH]. Qed.

Lemma empty_table_ok k :
  (0 <= k)%Z -> table_ok (repeat None (Z.to_nat (2 ^ k))) (2 ^ k - 1).
Proof.
  intros Hk. pose proof (Z.pow_pos_nonneg 2 k). constructor.
  - exists k. auto.
  - rewrite repeat_length. lia.
  - rewrite entries_repeat_none. intros e [].
  - intros j e E. rewrite slot_repeat_none in E. discriminate E.
Qed.

Definition set_ok (so : setobject) : Prop :=
  table_ok (so_table so) (so_mask so) /\
  so_fill so = Z.of_nat (List.length (entries (so_table so))) /\
  (so_fill so * 5 < so_mask so * 3)%Z.

Lemma resize_ok so minused :
  table_ok (so_table so) (so_mask so) ->
  so_fill so = Z.of_nat (List.length (entries (so_table so))) ->
  (1 <= so_fill so)%Z -> (2 * so_fill so <= minused)%Z ->
  set_ok (set_table_resize so minused) /\
  Permutation (entries (so_table (set_table_resize so minused)))
              (entries (so_table so)).
Proof.
  intros Hok Hfill H1 H2. unfold set_table_resize. cbv zeta.
  set (k := Z.max 3 (Z.log2 minused + 1)).
  assert (Hk : (0 <= k)%Z) by lia.
  assert (Hbig : (minused < 2 ^ k)%Z).
  { destruct (Z.log2_spec minused) as [_ Hlog]; [lia |].
    eapply Z.lt_le_trans; [exact Hlog |].
    replace (Z.succ (Z.log2 minused)) with (Z.log2 minused + 1)%Z by lia.
    apply Z.pow_le_mono_r; lia. }
  destruct (fold_insert_clean_ok (2 ^ k - 1) (entries (so_table so))
              (repeat None (Z.to_nat (2 ^ k)))) as [Hok' P].
  - apply empty_table_ok, Hk.
  - rewrite entries_repeat_none, repeat_length. cbn [so_table so_mask so_fill List.length]. lia.
  - apply Forall_forall. apply (ok_entry _ _ Hok).
  - apply (entries_differ _ _ Hok).
  - rewrite entries_repeat_none. intros e e' _ [].
  - rewrite entries_repeat_none, app_nil_r in P.
    split; [| exact P]. unfold set_ok. cbn [so_table so_mask so_fill List.length].
    split; [exact Hok' |]. split.
    + rewrite (Permutation_length P). exact Hfill.
    + lia.
Qed.

Lemma set_add_key_ok so key :
  set_ok so -> is_nan key = false ->
  set_ok (set_add_key so key) /\
  (forall e, In e (entries (so_table (set_add_key so key))) ->
             In e (entries (so_table so)) \/ entry_key e = key) /\
  (forall e, In e (entries (so_table so)) ->
             In e (entries (so_table (set_add_key so key)))) /\
  (exists e, In e (entries (so_table (set_add_key so key))) /\
             py_eq (entry_key e) key = true).
Proof.
  intros (Hok & Hfill & Hload) Hkey.
  pose (e := SetEntry key (hash_number key)).
  assert (He : entry_ok e) by (split; [exact Hkey | reflexivity]).
  assert (Hfree : List.length (entries (so_table so)) < List.length (so_table so)).
  { pose proof (ok_length _ _ Hok). pose proof (mask_nonneg _ _ Hok). lia. }
  destruct (probe_ends (so_table so) (so_mask so) (same_as e) (entry_hash e) Hok Hfree)
    as (j & b & F).
  unfold set_add_key, set_add_entry. rewrite probe_hit.
  change (first_hit (so_table so) (same_key key (hash_number key))
            (path_of (so_mask so) (hash_number key)))
    with (first_hit (so_table so) (same_as e) (path_of (so_mask so) (entry_hash e))).
  change (SetEntry key (hash_number key)) with e.
  rewrite F. destruct b.
  - split; [unfold set_ok; auto |]. split; [auto |]. split; [auto |].
    apply first_hit_active in F as (e' & E & S).
    exists e'. split; [apply in_entries; eauto |].
    unfold same_as, same_key in S. apply andb_prop in S as [_ S]. exact S.
  - destruct (table_ok_fill _ _ _ _ Hok He F) as [Hok1 P1].
    set (so1 := SetObject (set_slot (so_table so) j e) (so_mask so) (so_fill so + 1)).
    assert (Hfill1 : so_fill so1 = Z.of_nat (List.length (entries (so_table so1)))).
    { unfold so1. cbn [so_table so_mask so_fill].
      rewrite (Permutation_length P1). cbn [List.length]. lia. }
    assert (Hin1 : forall e', In e' (entries (so_table so1)) <->
                              e' = e \/ In e' (entries (so_table so))).
    { intros e'. unfold so1. cbn [so_table]. split; intros H.
      - apply (Permutation_in _ P1) in H. destruct H; auto.
      - apply (Permutation_in _ (Permutation_sym P1)). destruct H; [left | right]; auto. }
    destruct ((so_fill so + 1) * 5 <? so_mask so * 3)%Z eqn:T.
    + apply Z.ltb_lt in T. fold so1.
      split; [unfold set_ok, so1 in *; cbn [so_table so_mask so_fill] in *; auto |].
      split; [intros e' H; apply Hin1 in H as [-> | H]; auto |].
      split; [intros e' H; apply Hin1; auto |].
      exists e. split; [apply Hin1; auto | apply py_eq_refl, Hkey].
    + fold so1.
      match goal with
      | |- context [set_table_resize so1 ?m] =>
          destruct (resize_ok so1 m) as [Hok2 P2]
      end.
      * exact Hok1.
      * exact Hfill1.
      * unfold so1. cbn [so_fill]. pose proof (Zle_0_nat (List.length (entries (so_table so)))). lia.
      * unfold so1. cbn [so_fill]. pose proof (Zle_0_nat (List.length (entries (so_table so)))).
        destruct (50000 <? so_fill so + 1)%Z; lia.
      * split; [exact Hok2 |].
        split; [intros e' H; apply (Permutation_in _ P2), Hin1 in H as [-> | H]; auto |].
        split; [intros e' H; apply (Permutation_in _ (Permutation_sym P2)), Hin1; auto |].
        exists e. split; [| apply py_eq_refl, Hkey].
        apply (Permutation_in _ (Permutation_sym P2)), Hin1. auto.
Qed.
End Probing.

(* ----------------------------------------------------------------- *)
(** ** What [set(xs)] holds *)

Lemma empty_set_ok : set_ok empty_set.
Proof.
  unfold set_ok, empty_set. cbn [so_table so_mask so_fill].
  split; [| split].
  - apply (empty_table_ok 3). lia.
  - rewrite entries_repeat_none. reflexivity.
  - reflexivity.
Qed.

Lemma fold_add_key_ok xs : forall so,
  set_ok so -> Forall (fun x => is_nan x = false) xs ->
  set_ok (fold_left set_add_key xs so) /\
  (forall e, In e (entries (so_table (fold_left set_add_key xs so))) ->
             In e (entries (so_table so)) \/ In (entry_key e) xs) /\
  (forall e, In e (entries (so_table so)) ->
             In e (entries (so_table (fold_left set_add_key xs so)))) /\
  (forall x, In x xs ->
             exists e, In e (entries (so_table (fold_left set_add_key xs so))) /\
                       py_eq (entry_key e) x = true).
Proof.
  induction xs as [| x xs IH]; intros so Hso Hxs; cbn [fold_left].
  - split; [exact Hso |]. split; [auto |]. split; [auto |]. intros x [].
  - inversion Hxs as [| ? ? Hx Hxs']; subst.
    destruct (set_add_key_ok so x Hso Hx) as (Hso1 & Hnew & Hold & (e0 & He0 & Ee0)).
    destruct (IH (set_add_key so x) Hso1 Hxs') as (Hso2 & Hnew2 & Hold2 & Hall2).
    split; [exact Hso2 |]. split; [| split].
    + intros e He. destruct (Hnew2 e He) as [K | K]; [| right; right; exact K].
      destruct (Hnew e K) as [K' | K']; [left; exact K' | right; left; symmetry; exact K'].
    + intros e He. apply Hold2, Hold, He.
    + intros y [<- | Hy]; [| apply Hall2, Hy].
      exists e0. split; [apply Hold2, He0 | exact Ee0].
Qed.

Lemma differing_entries_ranks es :
  Forall entry_ok es -> all_differ es -> NoDup (map rank (map entry_key es)).
Proof.
  intros Hok Hd. induction Hd as [| a es Ha Hd IH]; simpl; [constructor |].
  inversion Hok as [| ? ? [Hnan Hhash] Hok']; subst.
  constructor; [| apply IH, Hok'].
  intros K. rewrite map_map in K. apply in_map_iff in K as (b & E & Hb).
  rewrite Forall_forall in Ha, Hok'.
  pose proof (Ha b Hb) as S. destruct (Hok' b Hb) as [Hnan' Hhash'].
  assert (Q : py_eq (entry_key a) (entry_key b) = true)
    by (apply py_eq_rank; auto).
  unfold same_as, same_key in S.
  rewrite Q, Hhash, Hhash', (py_eq_hash _ _ Q), Z.eqb_refl in S. discriminate S.
Qed.

(** The set of a list without NaN holds elements of the list only, one for
    each value of the list, and no value twice. *)
Theorem py_set_spec xs :
  Forall (fun x => is_nan x = false) xs ->
  (forall y, In y (py_set xs) -> In y xs) /\
  (forall x, In x xs -> exists y, In y (py_set xs) /\ py_eq y x = true) /\
  NoDup (map rank (py_set xs)).
Proof.
  intros Hxs. unfold py_set.
  destruct (fold_add_key_ok xs empty_set empty_set_ok Hxs)
    as ((Hok & _ & _) & Hnew & _ & Hall).
  split; [| split].
  - intros y Hy. apply in_map_iff in Hy as (e & <- & He).
    destruct (Hnew e He) as [K | K]; [| exact K].
    unfold empty_set in K. cbn [so_table] in K.
    rewrite entries_repeat_none in K. contradiction.
  - intros x Hx. destruct (Hall x Hx) as (e & He & E).
    exists (entry_key e). split; [apply in_map, He | exact E].
  - apply differing_entries_ranks.
    + apply Forall_forall. apply (ok_entry _ _ Hok).
    + apply (entries_differ _ _ Hok).
Qed.

Lemma py_set_not_nan xs y :
  Forall (fun x => is_nan x = false) xs -> In y (py_set xs) -> is_nan y = false.
Proof.
  intros Hxs Hy. apply (proj1 (py_set_spec xs Hxs)) in Hy.
  rewrite Forall_forall in Hxs. apply Hxs, Hy.
Qed.

Lemma py_set_not_empty x xs :
  Forall (fun x => is_nan x = false) (x :: xs) -> py_set (x :: xs) <> [].
Proof.
  intros H E.
  destruct (proj1 (proj2 (py_set_spec _ H)) x (or_introl eq_refl)) as (y & Hy & _).
  rewrite E in Hy. contradiction.
Qed.

(* ----------------------------------------------------------------- *)
(** ** The common font size *)

(** [max(items, key=key)] returns the first item of the largest key. *)
Lemma max_by_from_spec {A : Type} (key : A -> nat) items : forall pre best mid,
  (forall y, In y pre -> key y < key best) ->
  (forall y, In y mid -> key y <= key best) ->
  exists front back,
    pre ++ best :: mid ++ items = front ++ max_by_from key best items :: back /\
    (forall y, In y front -> key y < key (max_by_from key best items)) /\
    (forall y, In y back -> key y <= key (max_by_from key best items)).
Proof.
  induction items as [| x items IH]; intros pre best mid Hpre Hmid; cbn [max_by_from].
  - exists pre, mid. rewrite app_nil_r. auto.
  - destruct (key best <? key x) eqn:E.
    + apply Nat.ltb_lt in E.
      destruct (IH (pre ++ best :: mid) x []) as (front & back & Eq & Hf & Hb).
      * intros y Hy. apply in_app_or in Hy as [Hy | [<- | Hy]].
        -- specialize (Hpre y Hy). lia.
        -- exact E.
        -- specialize (Hmid y Hy). lia.
      * intros y [].
      * exists front, back. split; [| auto].
        rewrite <- Eq, <- app_assoc. reflexivity.
    + apply Nat.ltb_ge in E.
      destruct (IH pre best (mid ++ [x])) as (front & back & Eq & Hf & Hb).
      * exact Hpre.
      * intros y Hy. apply in_app_or in Hy as [Hy | [<- | []]]; auto.
      * exists front, back. split; [| auto].
        rewrite <- Eq, <- app_assoc. reflexivity.
Qed.

(** Equal values occur equally often. *)
Lemma py_count_eq xs x y : py_eq x y = true -> py_count xs x = py_count xs y.
Proof.
  intros E. unfold py_count. f_equal. apply filter_ext. intros z.
  destruct (py_eq z y) eqn:Ey.
  - apply (py_eq_trans _ _ _ Ey). rewrite py_eq_sym. exact E.
  - destruct (py_eq z x) eqn:Ex; [| reflexivity].
    rewrite <- Ey. symmetry. apply (py_eq_trans _ _ _ Ex E).
Qed.

(** The common size as C3 words it: of the sizes with the highest count, the
    one that comes first in the input. *)
Definition claimed_common_font_size (font_sizes : list number) : number :=
  match font_sizes with
  | [] => num 12
  | first :: rest => max_by_from (py_count font_sizes) first rest
  end.

(** C3, as stated, fails on the code: in [12, 10, 12, 10] both sizes occur
    twice and 12 comes first, but the set is iterated in the order of its
    slots, 10 before 12, and 10 is the common size. *)
Lemma common_size_counterexample :
  py_count [num 12; num 10; num 12; num 10] (num 12) = 2 /\
  py_count [num 12; num 10; num 12; num 10] (num 10) = 2 /\
  py_set [num 12; num 10; num 12; num 10] = [num 10; num 12] /\
  most_common_font_size [num 12; num 10; num 12; num 10] = num 10 /\
  claimed_common_font_size [num 12; num 10; num 12; num 10] = num 12.
Proof. repeat split; vm_compute; reflexivity. Qed.

(** C3, amended.  The common font size of a non-empty sequence of lines is
    a mode of their font sizes: one of the sizes, and none occurs more
    often.  Of the sizes that occur most often it is the one that comes
    first when the set of the sizes is iterated. *)
Theorem common_size_is_mode :
  forall font_sizes,
    font_sizes <> [] ->
    Forall (fun x => is_nan x = false) font_sizes ->
    In (most_common_font_size font_sizes) font_sizes /\
    (forall x, In x font_sizes ->
               py_count font_sizes x
               <= py_count font_sizes (most_common_font_size font_sizes)) /\
    exists front back,
      py_set font_sizes = front ++ most_common_font_size font_sizes :: back /\
      forall y, In y front ->
                py_count font_sizes y
                < py_count font_sizes (most_common_font_size font_sizes).
Proof.
  intros xs Hne Hxs.
  destruct (py_set_spec xs Hxs) as (Hsound & Hcomplete & _).
  destruct xs as [| x0 xs0]; [congruence |].
  set (xs := x0 :: xs0) in *.
  unfold most_common_font_size.
  change (match xs with [] => num 12 | _ :: _ =>
            match py_set xs with
            | first :: rest => max_by_from (py_count xs) first rest
            | [] => num 12
            end end)
    with (match py_set xs with
          | first :: rest => max_by_from (py_count xs) first rest
          | [] => num 12
          end).
  destruct (py_set xs) as [| first rest] eqn:Es;
    [elim (py_set_not_empty x0 xs0 Hxs Es) |].
  destruct (max_by_from_spec (py_count xs) rest [] first [])
    as (front & back & Eq & Hf & Hb); [intros y [] | intros y [] |].
  cbn [app] in Eq.
  set (c := max_by_from (py_count xs) first rest) in *.
  assert (Hc : In c (first :: rest)) by (rewrite Eq; apply in_elt).
  split; [apply Hsound, Hc |]. split.
  - intros x Hx. destruct (Hcomplete x Hx) as (y & Hy & E).
    rewrite <- (py_count_eq xs y x E).
    rewrite Eq in Hy. apply in_app_or in Hy as [Hy | [<- | Hy]].
    + specialize (Hf y Hy). lia.
    + lia.
    + apply Hb, Hy.
  - exists front, back. split; [exact Eq | exact Hf].
Qed.

Lemma common_size_is_mode_witness :
  Forall (fun x => is_nan x = false) [num 12; num 10; num 12; num 10; num 14] /\
  In (most_common_font_size [num 12; num 10; num 12; num 10; num 14])
     [num 12; num 10; num 12; num 10; num 14].
Proof.
  assert (H : Forall (fun x => is_nan x = false)
                [num 12; num 10; num 12; num 10; num 14]) by (repeat constructor).
  split; [exact H |].
  exact (proj1 (common_size_is_mode [num 12; num 10; num 12; num 10; num 14]
                  ltac:(discriminate) H)).
Defined.

(* ----------------------------------------------------------------- *)
(** ** The levels *)

(** [unique_sizes] and [size_to_level] of [determine_heading_level]. *)
Definition unique_sizes (all_headings : list Heading) : list number :=
  py_sorted_reverse py_lt (py_set (map font_size all_headings)).

Definition size_to_level (sizes : list number) : dict str :=
  fold_left (fun d '(i, size) => dict_set d size (level_name (i + 1)))
            (enumerate (firstn 3 sizes)) [].

Lemma determine_heading_level_eq h all_headings :
  determine_heading_level h all_headings =
  dict_get (size_to_level (unique_sizes all_headings)) (font_size h) (py "H3").
Proof. reflexivity. Qed.

Definition levels : list str := [py "H1"; py "H2"; py "H3"].

(** Whatever the sizes are, a lookup gives one of the three levels. *)
Lemma size_to_level_range sizes x :
  In (dict_get (size_to_level sizes) x (py "H3")) levels.
Proof.
  unfold size_to_level, levels.
  destruct sizes as [| u0 [| u1 [| u2 rest]]]; cbn;
    repeat match goal with
           | |- context [py_eq ?a ?b] => destruct (py_eq a b); cbn
           end;
    tauto.
Qed.

Lemma distinct_ranks_differ a b x :
  is_nan a = false -> is_nan b = false -> rank a <> rank b ->
  py_eq a x = true -> py_eq b x = false.
Proof.
  intros Ha Hb Hr E. destruct (py_eq b x) eqn:E'; [| reflexivity].
  exfalso. apply Hr. apply py_eq_rank; auto.
  apply (py_eq_trans _ _ _ E). rewrite py_eq_sym. exact E'.
Qed.

(** In a list of distinct sizes, the size at index 0 gets H1, the one at
    index 1 gets H2, and every other one H3. *)
Lemma size_to_level_at sizes i u x :
  Forall (fun s => is_nan s = false) sizes ->
  NoDup (map rank sizes) ->
  nth_error sizes i = Some u -> py_eq u x = true ->
  dict_get (size_to_level sizes) x (py "H3")
  = match i with 0 => py "H1" | 1 => py "H2" | _ => py "H3" end.
Proof.
  intros Hnan Hnd Hi E.
  assert (D : forall j v, nth_error sizes j = Some v -> j <> i -> py_eq v x = false).
  { intros j v Hj Hne.
    assert (Hv : In v sizes) by (eapply nth_error_In; eauto).
    assert (Hu : In u sizes) by (eapply nth_error_In; eauto).
    rewrite Forall_forall in Hnan.
    apply (distinct_ranks_differ u v x); auto.
    intros R. apply Hne.
    apply (proj1 (NoDup_nth_error (map rank sizes)) Hnd).
    - rewrite length_map. apply nth_error_Some. congruence.
    - rewrite (map_nth_error rank _ _ Hj), (map_nth_error rank _ _ Hi). congruence. }
  assert (N : forall j k v w, nth_error sizes j = Some v -> nth_error sizes k = Some w ->
                              j <> k -> py_eq v w = false).
  { intros j k v w Hj Hk Hne.
    assert (Hv : In v sizes) by (eapply nth_error_In; eauto).
    assert (Hw : In w sizes) by (eapply nth_error_In; eauto).
    rewrite Forall_forall in Hnan.
    destruct (py_eq v w) eqn:Q; [| reflexivity].
    exfalso. apply Hne.
    apply (proj1 (NoDup_nth_error (map rank sizes)) Hnd).
    - rewrite length_map. apply nth_error_Some. congruence.
    - rewrite (map_nth_error rank _ _ Hj), (map_nth_error rank _ _ Hk).
      f_equal. apply py_eq_rank; auto. }
  unfold size_to_level.
  destruct sizes as [| u0 [| u1 [| u2 rest]]].
  - destruct i; discriminate Hi.
  - destruct i as [| i]; [| destruct i; discriminate Hi].
    injection Hi as ->. cbn. rewrite E. reflexivity.
  - cbn. rewrite (N 0 1 u0 u1 eq_refl eq_refl) by lia.
    destruct i as [| [| i]].
    + injection Hi as ->. cbn. rewrite E. reflexivity.
    + injection Hi as ->. cbn. rewrite (D 0 u0 eq_refl) by lia. rewrite E. reflexivity.
    + destruct i; discriminate Hi.
  - cbn. rewrite (N 0 1 u0 u1 eq_refl eq_refl) by lia. cbn.
    rewrite (N 0 2 u0 u2 eq_refl eq_refl), (N 1 2 u1 u2 eq_refl eq_refl) by lia.
    destruct i as [| [| [| i]]].
    + injection Hi as ->. cbn. rewrite E. reflexivity.
    + injection Hi as ->. cbn. rewrite (D 0 u0 eq_refl) by lia. rewrite E. reflexivity.
    + injection Hi as ->. cbn.
      rewrite (D 0 u0 eq_refl), (D 1 u1 eq_refl) by lia. rewrite E. reflexivity.
    + cbn. rewrite (D 0 u0 eq_refl), (D 1 u1 eq_refl), (D 2 u2 eq_refl) by lia.
      reflexivity.
Qed.

(** Sorted lists, reversed and made strict. *)
Lemma StronglySorted_app {A : Type} (R : A -> A -> Prop) l1 l2 :
  StronglySorted R l1 -> StronglySorted R l2 ->
  (forall x y, In x l1 -> In y l2 -> R x y) ->
  StronglySorted R (l1 ++ l2).
Proof.
  intros H1 H2 H. induction H1 as [| a l1 H1 IH Ha]; [exact H2 |].
  simpl. constructor.
  - apply IH. intros x y Hx Hy. apply H; [right; exact Hx | exact Hy].
  - apply Forall_app. split; [exact Ha |].
    apply Forall_forall. intros y Hy. apply H; [left; reflexivity | exact Hy].
Qed.

Lemma StronglySorted_rev {A : Type} (R : A -> A -> Prop) l :
  StronglySorted R l -> StronglySorted (fun a b => R b a) (rev l).
Proof.
  induction 1 as [| a l H IH Ha]; simpl; [constructor |].
  apply StronglySorted_app; [exact IH | repeat constructor |].
  intros x y Hx [<- | []]. apply in_rev in Hx.
  rewrite Forall_forall in Ha. apply Ha, Hx.
Qed.

Lemma sorted_distinct_strict l :
  Forall (fun s => is_nan s = false) l ->
  NoDup (map rank l) ->
  StronglySorted (fun a b => py_le a b = true) l ->
  StronglySorted (fun a b => py_lt a b = true) l.
Proof.
  intros Hnan Hnd Hs. induction Hs as [| a l Hs IH Ha]; [constructor |].
  inversion Hnan as [| ? ? Hna Hnan']; subst.
  simpl in Hnd. inversion Hnd as [| ? ? Hnotin Hnd']; subst.
  constructor; [apply IH; assumption |].
  rewrite Forall_forall in *. intros b Hb.
  specialize (Ha b Hb). specialize (Hnan' b Hb).
  apply py_le_rank in Ha; auto. apply py_lt_rank; auto.
  destruct Ha as [Ha | Ha]; [exact Ha |].
  exfalso. apply Hnotin. rewrite Ha. apply in_map, Hb.
Qed.

Lemma py_sorted_reverse_perm {A : Type} (lt : A -> A -> bool) l :
  Permutation (py_sorted_reverse lt l) l.
Proof.
  unfold py_sorted_reverse.
  rewrite <- Permutation_rev, py_sorted_perm, <- Permutation_rev. reflexivity.
Qed.

(** The distinct sizes of the headings, from the largest down. *)
Lemma unique_sizes_spec all_headings :
  Forall size_ok all_headings ->
  Forall (fun s => is_nan s = false) (unique_sizes all_headings) /\
  NoDup (map rank (unique_sizes all_headings)) /\
  StronglySorted (fun a b => py_lt b a = true) (unique_sizes all_headings) /\
  (forall u, In u (unique_sizes all_headings) -> In u (map font_size all_headings)) /\
  (forall h, In h all_headings ->
             exists u, In u (unique_sizes all_headings) /\
                       py_eq u (font_size h) = true).
Proof.
  intros Hok. unfold unique_sizes.
  set (xs := map font_size all_headings).
  assert (Hxs : Forall (fun x => is_nan x = false) xs).
  { apply Forall_forall. intros x Hx. apply in_map_iff in Hx as (h & <- & Hh).
    rewrite Forall_forall in Hok. apply (Hok h Hh). }
  destruct (py_set_spec xs Hxs) as (Hsound & Hcomplete & Hnd).
  pose proof (py_sorted_reverse_perm py_lt (py_set xs)) as P.
  assert (Hnan : Forall (fun s => is_nan s = false) (py_set xs)).
  { apply Forall_forall. intros y Hy. apply (py_set_not_nan xs y Hxs Hy). }
  assert (Hnan' : Forall (fun s => is_nan s = false) (rev (py_set xs)))
    by (apply Forall_rev, Hnan).
  split; [| split; [| split; [| split]]].
  - apply Forall_forall. intros y Hy. apply (Permutation_in _ P) in Hy.
    apply (py_set_not_nan xs y Hxs Hy).
  - apply (Permutation_NoDup (Permutation_map rank (Permutation_sym P))). exact Hnd.
  - unfold py_sorted_reverse.
    apply (StronglySorted_rev (fun a b => py_lt a b = true)).
    apply sorted_distinct_strict.
    + apply Forall_forall. intros y Hy.
      apply (Permutation_in _ (py_sorted_perm py_lt _)) in Hy.
      rewrite Forall_forall in Hnan'. apply Hnan', Hy.
    + apply (Permutation_NoDup
               (Permutation_map rank (Permutation_sym (py_sorted_perm py_lt _)))).
      apply (Permutation_NoDup (Permutation_map rank (Permutation_rev (py_set xs)))).
      exact Hnd.
    + apply Sorted_StronglySorted; [intros a b c; apply py_le_trans |].
      apply (py_sorted_sorted py_lt (fun a b => py_le a b = true)
               (fun s => is_nan s = false)).
      * apply py_lt_le.
      * intros a b Ha Hb H. apply py_lt_false_ge; assumption.
      * exact Hnan'.
  - intros u Hu. apply Hsound. apply (Permutation_in _ P), Hu.
  - intros h Hh. destruct (Hcomplete (font_size h)) as (y & Hy & E).
    + apply in_map, Hh.
    + exists y. split; [apply (Permutation_in _ (Permutation_sym P)), Hy | exact E].
Qed.

(** C5.  The distinct font sizes of the candidates are sorted from the
    largest down; a candidate of the largest size gets H1, of the second
    largest H2, of the third largest H3, and of any smaller size H3 as
    well.  So every level is one of H1, H2, H3. *)
Theorem level_assignment :
  (forall all_headings,
      Forall size_ok all_headings ->
      StronglySorted (fun a b => py_lt b a = true) (unique_sizes all_headings) /\
      (forall u, In u (unique_sizes all_headings) ->
                 In u (map font_size all_headings)) /\
      (forall h, In h all_headings ->
                 exists i u, nth_error (unique_sizes all_headings) i = Some u /\
                             py_eq u (font_size h) = true) /\
      (forall h i u,
          nth_error (unique_sizes all_headings) i = Some u ->
          py_eq u (font_size h) = true ->
          determine_heading_level h all_headings
          = match i with 0 => py "H1" | 1 => py "H2" | _ => py "H3" end)) /\
  (forall h all_headings,
      In (determine_heading_level h all_headings) [py "H1"; py "H2"; py "H3"]) /\
  (forall doc e, In e (outline (extract_outline doc)) ->
                 In (item_level e) [py "H1"; py "H2"; py "H3"]).
Proof.
  split; [| split].
  - intros hs Hok.
    destruct (unique_sizes_spec hs Hok) as (Hnan & Hnd & Hsorted & Hsound & Hcomplete).
    split; [exact Hsorted |]. split; [exact Hsound |]. split.
    + intros h Hh. destruct (Hcomplete h Hh) as (u & Hu & E).
      apply In_nth_error in Hu as (i & Hi). eauto.
    + intros h i u Hi E. rewrite determine_heading_level_eq.
      apply (size_to_level_at _ i u); assumption.
  - intros h hs. rewrite determine_heading_level_eq. apply size_to_level_range.
  - intros doc e He. unfold extract_outline, to_outline in He. cbn [outline] in He.
    apply in_map_iff in He as (h & <- & Hh). cbn [item_level].
    apply unique_headings_in, assign_levels_in in Hh as (h0 & _ & _ & _ & _ & ->).
    rewrite determine_heading_level_eq. apply size_to_level_range.
Qed.

Definition sample_headings : list Heading :=
  [mkHeading [] (py "Scope") 1 (num 14) 0;
   mkHeading [] (py "Report") 1 (num 18) 16;
   mkHeading [] (py "Details") 2 (num 12) 0;
   mkHeading [] (py "Notes") 2 (num 10) 0;
   mkHeading [] (py "Annex") 3 (num 18) 16].

Lemma level_assignment_witness :
  Forall size_ok sample_headings /\
  unique_sizes sample_headings = [num 18; num 14; num 12; num 10] /\
  determine_heading_level (mkHeading [] (py "Notes") 2 (num 10) 0) sample_headings
  = py "H3".
Proof.
  assert (H : Forall size_ok sample_headings) by (repeat constructor).
  split; [exact H |]. split; [vm_compute; reflexivity |].
  exact (proj2 (proj2 (proj2 (proj1 level_assignment sample_headings H)))
           (mkHeading [] (py "Notes") 2 (num 10) 0) 3 (num 10)
           ltac:(vm_compute; reflexivity) ltac:(vm_compute; reflexivity)).
Defined.

(* ================================================================= *)
(** * Part IV: further properties of the module *)

(* ----------------------------------------------------------------- *)
(** ** The accept rules of [is_heading_candidate] *)

Lemma not_rejected text : ~ reject_filters (strip text) -> rejected (strip text) = false.
Proof.
  intros H. destruct (rejected (strip text)) eqn:E; [| reflexivity].
  elim H. apply rejected_iff, E.
Qed.

Lemma bold_bit_test flags :
  negb (Z.land flags (2 ^ 4) =? 0)%Z = Z.testbit flags 4.
Proof.
  destruct (Z.testbit flags 4) eqn:B.
  - destruct (Z.eqb_spec (Z.land flags (2 ^ 4)) 0) as [E | E]; [| reflexivity].
    assert (K : Z.testbit (Z.land flags (2 ^ 4)) 4 = true)
      by (rewrite Z.land_spec, B; reflexivity).
    rewrite E, Z.bits_0 in K. discriminate K.
  - replace (Z.land flags (2 ^ 4)) with 0%Z; [reflexivity |].
    symmetry. apply Z.bits_inj'. intros n Hn.
    rewrite Z.land_spec, Z.bits_0.
    destruct (Z.eq_dec n 4) as [-> | N]; [rewrite B; reflexivity |].
    rewrite (Z.pow2_bits_false 4 n) by lia. apply andb_false_r.
Qed.

(** X1.  The style rule: a line that passes the reject filters and has the bold
    bit (bit 4, value 16) among its flags is a heading candidate whatever
    its font size and its text are. *)
Theorem bold_rule_accepts :
  forall text font_size font_flags avg_font_size common_font_size,
    ~ reject_filters (strip text) ->
    Z.testbit font_flags 4 = true ->
    is_heading_candidate text font_size font_flags avg_font_size common_font_size
    = true.
Proof.
  intros text fs fl avg common Hpass Hbold.
  rewrite is_heading_candidate_kept by (apply not_rejected, Hpass).
  rewrite bold_bit_test, Hbold, orb_true_r. reflexivity.
Qed.

Lemma bold_rule_accepts_witness :
  ~ reject_filters (strip (py "see table 4, row 2")) /\
  is_heading_candidate (py "see table 4, row 2") (num 9) 20 (num 12) (num 12) = true /\
  is_heading_candidate (py "see table 4, row 2") (num 9) 4 (num 12) (num 12) = false.
Proof.
  assert (H : ~ reject_filters (strip (py "see table 4, row 2"))).
  { intros R. apply rejected_iff in R. vm_compute in R. discriminate R. }
  split; [exact H |]. split; [| reflexivity].
  exact (bold_rule_accepts (py "see table 4, row 2") (num 9) 20 (num 12) (num 12)
           H eq_refl).
Defined.

(** [sub in s] holds exactly when [s] has [sub] somewhere inside. *)
Lemma startswith_iff s prefix :
  startswith s prefix = true <-> exists rest, s = prefix ++ rest.
Proof.
  revert s. induction prefix as [| p prefix IH]; intros s; simpl.
  - split; [intros _; exists s; reflexivity | intros _; destruct s; reflexivity].
  - destruct s as [| c s]; simpl;
      [split; [discriminate | intros (r & E); discriminate E] |].
    rewrite andb_true_iff, IH. split.
    + intros [E (r & ->)]. apply Ascii.eqb_eq in E. subst. exists r. reflexivity.
    + intros (r & E). injection E as -> ->. split; [apply Ascii.eqb_refl | eauto].
Qed.

Lemma contains_iff s sub :
  contains s sub = true <-> exists before after, s = before ++ sub ++ after.
Proof.
  induction s as [| c s IH]; cbn [contains].
  - rewrite orb_false_r, startswith_iff. split.
    + intros (r & E). exists [], r. exact E.
    + intros (b & a & E). destruct b; [exists a; exact E | discriminate E].
  - rewrite orb_true_iff, IH. split.
    + intros [H | (b & a & ->)].
      * apply startswith_iff in H as (r & ->). exists [], r. reflexivity.
      * exists (c :: b), a. reflexivity.
    + intros (b & a & E). destruct b as [| c' b].
      * left. apply startswith_iff. exists a. exact E.
      * right. injection E as -> ->. eauto.
Qed.

(** X2.  The keyword rule: a line that passes the reject filters and whose
    trimmed text, put in lower case, has one of the keywords anywhere
    inside is a heading candidate whatever its font size and flags are. *)
Theorem keyword_rule_accepts :
  forall text keyword before after font_size font_flags avg_font_size common_font_size,
    ~ reject_filters (strip text) ->
    In keyword heading_keywords ->
    py_lower (strip text) = before ++ keyword ++ after ->
    is_heading_candidate text font_size font_flags avg_font_size common_font_size
    = true.
Proof.
  intros text kw before after fs fl avg common Hpass Hkw E.
  rewrite is_heading_candidate_kept by (apply not_rejected, Hpass).
  replace (existsb (contains (py_lower (strip text))) heading_keywords) with true.
  - apply orb_true_r.
  - symmetry. apply existsb_exists. exists kw. split; [exact Hkw |].
    apply contains_iff. eauto.
Qed.

Lemma keyword_rule_accepts_witness :
  ~ reject_filters (strip (py " 2 reINDEXing the db-2 ")) /\
  is_heading_candidate (py " 2 reINDEXing the db-2 ") (num 9) 0 (num 12) (num 12) = true.
Proof.
  assert (H : ~ reject_filters (strip (py " 2 reINDEXing the db-2 "))).
  { intros R. apply rejected_iff in R. vm_compute in R. discriminate R. }
  split; [exact H |].
  apply (keyword_rule_accepts (py " 2 reINDEXing the db-2 ") (py "index")
           (py "2 re") (py "ing the db-2") (num 9) 0 (num 12) (num 12) H).
  - simpl. tauto.
  - reflexivity.
Defined.

(** A section number as the second pattern reads it: digits, then up to
    two more groups of digits, each after an optional dot. *)
Definition outline_number (s : str) : Prop :=
  exists d1 p1 d2 p2 d3,
    s = d1 ++ p1 ++ d2 ++ p2 ++ d3 /\
    d1 <> [] /\
    Forall (fun c => isdecimal c = true) d1 /\
    Forall (fun c => isdecimal c = true) d2 /\
    Forall (fun c => isdecimal c = true) d3 /\
    (p1 = [] \/ p1 = [chr "."]) /\ (p2 = [] \/ p2 = [chr "."]).

Lemma opt_dot_matches p :
  p = [] \/ p = [chr "."] -> Matches true (Opt (Lit (chr "."))) p.
Proof.
  intros [-> | ->]; [apply M_opt_nil |]. apply M_opt_some, M_char. reflexivity.
Qed.

Lemma plus_of_accepted_list ic r s :
  s <> [] -> Forall (fun c => accepts ic r c = true) s -> Matches ic (Plus r) s.
Proof.
  intros Hne H. destruct s as [| c s]; [congruence |]. apply plus_of_accepted, H.
Qed.

(** X3.  The pattern rule for numbered headings: a trimmed text that starts with
    a section number, then white space, then any character but a newline,
    is a heading candidate when it passes the reject filters. *)
Theorem numbered_heading_accepted :
  forall text numbering spaces c rest font_size font_flags avg_font_size common_font_size,
    strip text = numbering ++ spaces ++ c :: rest ->
    outline_number numbering ->
    spaces <> [] ->
    Forall (fun a => isspace a = true) spaces ->
    c <> newline ->
    ~ reject_filters (strip text) ->
    is_heading_candidate text font_size font_flags avg_font_size common_font_size
    = true.
Proof.
  intros text numbering spaces c rest fs fl avg common E Hnum Hne Hsp Hc Hpass.
  rewrite is_heading_candidate_kept by (apply not_rejected, Hpass).
  replace (existsb (fun p => re_match p (strip text) true) heading_patterns) with true.
  - rewrite orb_true_r. reflexivity.
  - symmetry. apply existsb_exists.
    exists (Pattern "^(\d+\.?\d*\.?\d*)\s+(.+)"
              ((Plus Digit >> Opt (Lit (chr ".")) >> Star Digit >>
                Opt (Lit (chr ".")) >> Star Digit) >> Plus Space >> Plus Dot)%re false).
    split; [simpl; tauto |].
    unfold re_match; cbn [dollar body]. apply prefixmatch_iff.
    exists (numbering ++ spaces ++ [c]), rest.
    split; [rewrite E, <- !app_assoc; reflexivity |].
    destruct Hnum as (d1 & p1 & d2 & p2 & d3 & -> & Hd1 & F1 & F2 & F3 & Hp1 & Hp2).
    apply M_cat.
    + apply M_cat; [apply plus_of_accepted_list; assumption |].
      apply M_cat; [apply opt_dot_matches, Hp1 |].
      apply M_cat; [apply star_of_accepted, F2 |].
      apply M_cat; [apply opt_dot_matches, Hp2 | apply star_of_accepted, F3].
    + apply M_cat; [apply plus_of_accepted_list; assumption |].
      change [c] with ([c] ++ []). apply M_plus; [| apply M_star_nil].
      apply M_char. cbn [accepts].
      destruct (Ascii.eqb_spec c newline); [contradiction | reflexivity].
Qed.

Lemma numbered_heading_accepted_witness :
  strip (py "1 Background info") = py "1" ++ py " " ++ chr "B" :: py "ackground info" /\
  outline_number (py "1") /\
  ~ reject_filters (strip (py "1 Background info")) /\
  is_heading_candidate (py "1 Background info") (num 9) 0 (num 12) (num 12) = true.
Proof.
  assert (Hn : outline_number (py "1")).
  { exists (py "1"), [], [], [], []. repeat split; auto; try discriminate.
    repeat constructor. }
  assert (H : ~ reject_filters (strip (py "1 Background info"))).
  { intros R. apply rejected_iff in R. vm_compute in R. discriminate R. }
  split; [reflexivity |]. split; [exact Hn |]. split; [exact H |].
  apply (numbered_heading_accepted (py "1 Background info") (py "1") (py " ")
           (chr "B") (py "ackground info") (num 9) 0 (num 12) (num 12)).
  - reflexivity.
  - exact Hn.
  - discriminate.
  - repeat constructor.
  - discriminate.
  - exact H.
Defined.

(* ----------------------------------------------------------------- *)
(** ** The first pattern: chapters, sections and parts *)

Fixpoint same_letters (w s : str) : Prop :=
  match w, s with
  | [], [] => True
  | a :: w', c :: s' => (c = a \/ lower_char c = a \/ upper_char c = a) /\ same_letters w' s'
  | _, _ => False
  end.

Lemma word_matches w : forall s,
  same_letters w s ->
  Matches true (fold_right (fun c r => Cat (Lit c) r) Eps w) s.
Proof.
  induction w as [| a w IH]; intros [| c s] H; simpl in H; try contradiction.
  - apply M_eps.
  - destruct H as [Hc Hs]. cbn [fold_right].
    change (c :: s) with ([c] ++ s). apply M_cat; [| apply IH, Hs].
    apply M_char. cbn [accepts]. unfold item_matches. cbn [item_has andb].
    destruct Hc as [-> | [<- | <-]]; rewrite ?Ascii.eqb_refl, ?orb_true_r; reflexivity.
Qed.

(** X4.  The first pattern: the word Chapter, Section or Part in any letter
    case, white space, a number, a dot or a colon, and then at least one
    more character make a heading candidate of a line that passes the
    reject filters. *)
Theorem chapter_heading_accepted :
  forall text kw spaces digits sep c rest
         font_size font_flags avg_font_size common_font_size,
    strip text = kw ++ spaces ++ digits ++ sep :: c :: rest ->
    same_letters (py "Chapter") kw \/ same_letters (py "Section") kw \/
    same_letters (py "Part") kw ->
    spaces <> [] -> Forall (fun a => isspace a = true) spaces ->
    digits <> [] -> Forall (fun a => isdecimal a = true) digits ->
    sep = chr "." \/ sep = chr ":" ->
    c <> newline ->
    ~ reject_filters (strip text) ->
    is_heading_candidate text font_size font_flags avg_font_size common_font_size
    = true.
Proof.
  intros text kw spaces digits sep c rest fs fl avg common
         E Hkw Hsp Fsp Hdg Fdg Hsep Hc Hpass.
  rewrite is_heading_candidate_kept by (apply not_rejected, Hpass).
  replace (existsb (fun p => re_match p (strip text) true) heading_patterns) with true.
  - rewrite orb_true_r. reflexivity.
  - symmetry. cbn [heading_patterns existsb].
    apply orb_true_iff. left.
    unfold re_match; cbn [dollar body]. apply prefixmatch_iff.
    exists (kw ++ spaces ++ digits ++ [sep] ++ [] ++ [c]), rest.
    split; [rewrite E, <- !app_assoc; reflexivity |].
    apply M_cat.
    { destruct Hkw as [H | [H | H]].
      - apply M_alt_l, word_matches, H.
      - apply M_alt_r, M_alt_l, word_matches, H.
      - apply M_alt_r, M_alt_r, word_matches, H. }
    apply M_cat; [apply plus_of_accepted_list; assumption |].
    apply M_cat; [apply plus_of_accepted_list; assumption |].
    apply M_cat.
    { apply M_char. destruct Hsep as [-> | ->]; reflexivity. }
    apply M_cat; [apply M_star_nil |].
    change [c] with ([c] ++ []). apply M_plus; [| apply M_star_nil].
    apply M_char. cbn [accepts].
    destruct (Ascii.eqb_spec c newline); [contradiction | reflexivity].
Qed.

Lemma chapter_heading_accepted_witness :
  ~ reject_filters (strip (py "CHAPTER 12: methods and data")) /\
  is_heading_candidate (py "CHAPTER 12: methods and data") (num 9) 0 (num 12) (num 12)
  = true.
Proof.
  assert (H : ~ reject_filters (strip (py "CHAPTER 12: methods and data"))).
  { intros R. apply rejected_iff in R. vm_compute in R. discriminate R. }
  split; [exact H |].
  apply (chapter_heading_accepted (py "CHAPTER 12: methods and data")
           (py "CHAPTER") (py " ") (py "12") (chr ":") (chr " ") (py "methods and data")
           (num 9) 0 (num 12) (num 12)).
  - reflexivity.
  - left. cbn. repeat split; first [left; reflexivity | right; left; reflexivity].
  - discriminate.
  - repeat constructor.
  - discriminate.
  - repeat constructor.
  - right. reflexivity.
  - discriminate.
  - exact H.
Defined.

(* ----------------------------------------------------------------- *)
(** ** What a line gives *)

Lemma fold_lor_bit n xs : forall acc,
  Z.testbit (fold_left Z.lor xs acc) n = Z.testbit acc n || existsb (fun x => Z.testbit x n) xs.
Proof.
  induction xs as [| x xs IH]; intros acc; simpl.
  - rewrite orb_false_r. reflexivity.
  - rewrite IH, Z.lor_spec, orb_assoc. reflexivity.
Qed.

Lemma existsb_mapped {A B : Type} (f : B -> bool) (g : A -> B) l :
  existsb f (map g l) = existsb (fun x => f (g x)) l.
Proof. induction l as [| x l IH]; simpl; [reflexivity | rewrite IH; reflexivity]. Qed.

Lemma line_info_fields page_num l i :
  In i (collect_line page_num [] l) ->
  strip (merged_text l) <> [] /\
  i = mkTextInfo (strip (merged_text l)) (line_font_size l) (line_font_flags l)
                 (page_num + 1).
Proof.
  rewrite collect_line_eq. cbn [app]. unfold line_info.
  destruct (str_eqb (strip (merged_text l)) []) eqn:E; cbn [negb]; [contradiction |].
  intros [<- | []]. split; [| reflexivity].
  intros K. apply str_eqb_nil in K. congruence.
Qed.

(** X5.  A collected line has a style bit exactly when one of its spans has it:
    the line is bold as soon as a part of it is. *)
Theorem line_flags_any_span :
  forall page_num l i n,
    In i (collect_line page_num [] l) ->
    Z.testbit (info_font_flags i) n
    = existsb (fun s => Z.testbit (span_flags s) n) (spans l).
Proof.
  intros page_num l i n H. apply line_info_fields in H as [_ ->].
  cbn [info_font_flags]. unfold line_font_flags.
  rewrite fold_lor_bit, Z.bits_0, existsb_mapped. reflexivity.
Qed.

Definition two_span_line : Line :=
  mkLine [mkSpan (py "Annual ") (num 11) 4; mkSpan (py "Report") (num 14) 16].

Lemma line_flags_any_span_witness :
  In (mkTextInfo (py "Annual Report") (num 14) 20 3) (collect_line 2 [] two_span_line) /\
  Z.testbit 20 4 = existsb (fun s => Z.testbit (span_flags s) 4) (spans two_span_line).
Proof.
  assert (H : In (mkTextInfo (py "Annual Report") (num 14) 20 3)
                 (collect_line 2 [] two_span_line)) by (left; reflexivity).
  split; [exact H |].
  exact (line_flags_any_span 2 two_span_line _ 4 H).
Defined.

Lemma py_max_cases a b : py_max a b = a \/ (py_max a b = b /\ py_lt a b = true).
Proof. unfold py_max, py_gt. destruct (py_lt a b); auto. Qed.

Lemma py_le_refl x : is_nan x = false -> py_le x x = true.
Proof. intros H. apply py_eq_le, py_eq_refl, H. Qed.

Lemma fold_py_max_ge_start xs : forall m,
  is_nan m = false -> py_le m (fold_left py_max xs m) = true.
Proof.
  induction xs as [| x xs IH]; intros m H; simpl; [apply py_le_refl, H |].
  destruct (py_max_cases m x) as [-> | [-> L]]; [apply IH, H |].
  apply (py_le_trans _ x); [apply py_lt_le, L |].
  apply IH. apply (py_lt_not_nan _ _ L).
Qed.

Lemma fold_py_max_ge_each xs : forall m x,
  is_nan m = false -> In x xs -> is_nan x = false ->
  py_le x (fold_left py_max xs m) = true.
Proof.
  induction xs as [| y xs IH]; intros m x Hm Hx Hnan; [contradiction |].
  simpl. assert (Hm' : is_nan (py_max m y) = false).
  { destruct (py_max_cases m y) as [-> | [-> L]]; [exact Hm | apply (py_lt_not_nan _ _ L)]. }
  destruct Hx as [-> | Hx]; [| apply IH; assumption].
  apply (py_le_trans _ (py_max m x)); [| apply fold_py_max_ge_start, Hm'].
  unfold py_max, py_gt. destruct (py_lt m x) eqn:L; [apply py_le_refl, Hnan |].
  apply py_lt_false_ge; assumption.
Qed.

Lemma fold_py_max_in xs : forall m,
  fold_left py_max xs m = m \/ In (fold_left py_max xs m) xs.
Proof.
  induction xs as [| y xs IH]; intros m; simpl; [left; reflexivity |].
  destruct (IH (py_max m y)) as [E | H]; [| right; right; exact H].
  rewrite E. destruct (py_max_cases m y) as [-> | [-> _]]; auto.
Qed.

(** X6.  The font size of a collected line is the largest span size, and 0 when
    no span size is above 0: it is never NaN and never below 0, no span
    size is above it, and it is 0 or the size of one of the spans. *)
Theorem line_size_is_largest :
  forall page_num l i,
    In i (collect_line page_num [] l) ->
    is_nan (info_font_size i) = false /\
    py_le (num 0) (info_font_size i) = true /\
    (forall s, In s (spans l) -> py_gt (span_size s) (info_font_size i) = false) /\
    (info_font_size i = num 0 \/
     exists s, In s (spans l) /\ info_font_size i = span_size s).
Proof.
  intros page_num l i H. apply line_info_fields in H as [_ ->].
  cbn [info_font_size]. unfold line_font_size.
  assert (H0 : is_nan (num 0) = false) by reflexivity.
  pose proof (fold_py_max_not_nan (map span_size (spans l)) (num 0) H0) as Hn.
  split; [exact Hn |]. split; [apply fold_py_max_ge_start, H0 |]. split.
  - intros s Hs. unfold py_gt.
    destruct (py_lt (fold_left py_max (map span_size (spans l)) (num 0)) (span_size s))
      eqn:L; [| reflexivity].
    destruct (py_lt_not_nan _ _ L) as [_ Hs'].
    pose proof (fold_py_max_ge_each (map span_size (spans l)) (num 0) (span_size s)
                  H0 (in_map span_size _ _ Hs) Hs') as G.
    apply py_lt_rank in L; auto. apply py_le_rank in G; auto.
    destruct G as [G | G].
    + elim (lex_lt_irrefl _ (lex_lt_trans _ _ _ L G)).
    + rewrite G in L. elim (lex_lt_irrefl _ L).
  - destruct (fold_py_max_in (map span_size (spans l)) (num 0)) as [E | H]; [left; exact E |].
    right. apply in_map_iff in H as (s & E & Hs). exists s. auto.
Qed.

Lemma line_size_is_largest_witness :
  In (mkTextInfo (py "Annual Report") (num 14) 20 3) (collect_line 2 [] two_span_line) /\
  is_nan (num 14) = false.
Proof.
  assert (H : In (mkTextInfo (py "Annual Report") (num 14) 20 3)
                 (collect_line 2 [] two_span_line)) by (left; reflexivity).
  split; [exact H |].
  exact (proj1 (line_size_is_largest 2 two_span_line _ H)).
Defined.

(* ----------------------------------------------------------------- *)
(** ** Trimmed text *)

Lemma lstrip_fixed s :
  (forall c rest, s = c :: rest -> isspace c = false) -> lstrip s = s.
Proof.
  destruct s as [| c s]; [reflexivity |]. intros H. simpl.
  rewrite (H c s eq_refl). reflexivity.
Qed.

Lemma lstrip_suffix s : exists ws, s = ws ++ lstrip s.
Proof.
  induction s as [| c s (ws & IH)]; [exists []; reflexivity |].
  simpl. destruct (isspace c); [| exists []; reflexivity].
  exists (c :: ws). simpl. rewrite <- IH. reflexivity.
Qed.

(** [strip] leaves a trimmed string as it is. *)
Lemma strip_idempotent s : strip (strip s) = strip s.
Proof.
  unfold strip, rstrip.
  set (a := lstrip s).
  assert (Ha : forall c rest, a = c :: rest -> isspace c = false)
    by (intros c rest E; apply (lstrip_head s c rest E)).
  set (r := lstrip (rev a)).
  assert (Hr : forall c rest, r = c :: rest -> isspace c = false)
    by (intros c rest E; apply (lstrip_head (rev a) c rest E)).
  assert (Hb : forall c rest, rev r = c :: rest -> isspace c = false).
  { intros c rest E. destruct (lstrip_suffix (rev a)) as (ws & Ews). fold r in Ews.
    apply (f_equal (@rev ascii)) in Ews. rewrite rev_involutive, rev_app_distr, E in Ews.
    apply (Ha c (rest ++ rev ws)). exact Ews. }
  rewrite (lstrip_fixed (rev r) Hb), rev_involutive, (lstrip_fixed r Hr). reflexivity.
Qed.

(** X7.  The text of a collected line is the concatenation of the span texts,
    trimmed; it is not empty, and a line whose spans hold white space only
    is not collected. *)
Theorem collected_line_text :
  forall page_num l,
    (forall i, In i (collect_line page_num [] l) ->
               info_text i = strip (List.concat (map span_text (spans l))) /\
               info_text i <> [] /\
               strip (info_text i) = info_text i /\
               info_page i = page_num + 1) /\
    (collect_line page_num [] l = [] <->
     Forall (fun c => isspace c = true) (List.concat (map span_text (spans l)))).
Proof.
  intros page_num l. split.
  - intros i H. apply line_info_fields in H as [Hne ->].
    cbn [info_text info_page]. unfold merged_text in *.
    repeat split; [exact Hne | apply strip_idempotent].
  - rewrite collect_line_eq, <- strip_nil_iff. cbn [app]. unfold line_info, merged_text.
    destruct (str_eqb (strip (List.concat (map span_text (spans l)))) []) eqn:E;
      cbn [negb].
    + apply str_eqb_nil in E. tauto.
    + split; [discriminate |]. intros K. apply str_eqb_nil in K. congruence.
Qed.

Lemma in_combine_seq {A : Type} (l : list A) k n x :
  In (n, x) (combine (seq 0 k) l) <-> n < k /\ nth_error l n = Some x.
Proof.
  assert (G : forall start, In (n, x) (combine (seq start k) l) <->
                            start <= n < start + k /\ nth_error l (n - start) = Some x).
  { revert l. induction k as [| k IH]; intros l start; simpl.
    - split; [contradiction | lia].
    - destruct l as [| y l]; simpl.
      + split; [contradiction |]. intros [_ E]. destruct (n - start); discriminate E.
      + rewrite IH. split.
        * intros [E | [L E]].
          -- injection E as -> ->. rewrite Nat.sub_diag. split; [lia | reflexivity].
          -- split; [lia |]. replace (n - start) with (S (n - S start)) by lia. exact E.
        * intros [L E]. destruct (Nat.eq_dec n start) as [-> | N].
          -- left. rewrite Nat.sub_diag in E. simpl in E. congruence.
          -- right. split; [lia |].
             replace (n - start) with (S (n - S start)) in E by lia. exact E. }
  rewrite G, Nat.sub_0_r. split; intros [H1 H2]; split; auto; lia.
Qed.

(** X8.  The collected lines are those of the first 50 pages that are not blank,
    each with its page number counted from 1. *)
Theorem collected_lines :
  forall doc i,
    In i (collect_text_info doc) <->
    exists n p l,
      n < 50 /\ nth_error (pages doc) n = Some p /\ In l (page_lines p) /\
      In i (collect_line n [] l).
Proof.
  intros doc i. rewrite collect_text_info_eq, in_flat_map. split.
  - intros ([n p] & Hnp & H). cbn [fst snd] in H.
    apply in_combine_seq in Hnp as [Hn Hp].
    apply in_flat_map in H as (l & Hl & H).
    exists n, p, l. rewrite collect_line_eq. cbn [app].
    repeat split; auto. lia.
  - intros (n & p & l & Hn & Hp & Hl & H).
    exists (n, p). split.
    + apply in_combine_seq. split; [| exact Hp].
      assert (n < List.length (pages doc)) by (apply nth_error_Some; congruence). lia.
    + cbn [fst snd]. apply in_flat_map. exists l. split; [exact Hl |].
      rewrite collect_line_eq in H. exact H.
Qed.

(* ----------------------------------------------------------------- *)
(** ** The outline of a document *)

Definition document_font_sizes (doc : Document) : list number :=
  map info_font_size (collect_text_info doc).

(** The headings of [extract_outline] before the levels are set. *)
Definition document_candidates (doc : Document) : list Heading :=
  candidate_headings (collect_text_info doc)
    (average_font_size (document_font_sizes doc))
    (most_common_font_size (document_font_sizes doc)).

Lemma extract_outline_eq doc :
  outline (extract_outline doc)
  = to_outline (unique_headings (assign_levels (document_candidates doc))).
Proof. reflexivity. Qed.

Lemma candidates_size_ok doc : Forall size_ok (assign_levels (document_candidates doc)).
Proof.
  apply Forall_forall. intros h Hh.
  apply assign_levels_in in Hh as (h0 & Hh0 & _ & _ & E & _).
  apply candidate_heading_info in Hh0 as (i & Hi & _ & ->).
  unfold size_ok. rewrite E. cbn [font_size]. apply (collected_not_nan doc i Hi).
Qed.

(** X9.  Every item of the outline is a collected line that
    [is_heading_candidate] accepts under the font profile of the document:
    it has the text and the page of the line, and the level that
    [determine_heading_level] gives to the size of the line. *)
Theorem outline_items_are_candidates :
  forall doc e,
    In e (outline (extract_outline doc)) ->
    exists i,
      In i (collect_text_info doc) /\
      is_heading_candidate (info_text i) (info_font_size i) (info_font_flags i)
        (average_font_size (document_font_sizes doc))
        (most_common_font_size (document_font_sizes doc)) = true /\
      item_text e = info_text i /\
      item_page e = info_page i /\
      item_level e =
        determine_heading_level
          (mkHeading [] (info_text i) (info_page i) (info_font_size i) (info_font_flags i))
          (document_candidates doc).
Proof.
  intros doc e He. rewrite extract_outline_eq in He. unfold to_outline in He.
  apply in_map_iff in He as (h & <- & Hh). cbn [item_text item_page item_level].
  apply unique_headings_in in Hh. unfold assign_levels in Hh.
  apply in_map_iff in Hh as (h0 & <- & Hh0). cbn [text page level].
  pose proof Hh0 as Hc.
  apply candidate_heading_info in Hc as (i & Hi & Hacc & E).
  exists i. rewrite E. cbn [text page]. repeat split; auto.
Qed.

Lemma outline_items_are_candidates_witness :
  In (mkOutlineItem (py "H1") (py "Annual Report") 1)
     (outline (extract_outline
                 (mkDocument None [mkPage [mkBlock (Some [two_span_line])]]))) /\
  exists i, In i (collect_text_info
                    (mkDocument None [mkPage [mkBlock (Some [two_span_line])]])) /\
            info_text i = py "Annual Report".
Proof.
  assert (H : In (mkOutlineItem (py "H1") (py "Annual Report") 1)
                 (outline (extract_outline
                             (mkDocument None [mkPage [mkBlock (Some [two_span_line])]]))))
    by (vm_compute; left; reflexivity).
  split; [exact H |].
  destruct (outline_items_are_candidates _ _ H) as (i & Hi & _ & Et & _).
  exists i. split; [exact Hi | symmetry; exact Et].
Defined.

(** X10.  No accepted line is lost: the text of every collected line that
    [is_heading_candidate] accepts is the text of an item of the outline. *)
Theorem accepted_lines_reach_outline :
  forall doc i,
    In i (collect_text_info doc) ->
    is_heading_candidate (info_text i) (info_font_size i) (info_font_flags i)
      (average_font_size (document_font_sizes doc))
      (most_common_font_size (document_font_sizes doc)) = true ->
    In (info_text i) (map item_text (outline (extract_outline doc))).
Proof.
  intros doc i Hi Hacc. rewrite extract_outline_eq.
  set (h := mkHeading [] (info_text i) (info_page i) (info_font_size i)
                      (info_font_flags i)).
  assert (Hh : In h (document_candidates doc)).
  { unfold document_candidates, candidate_headings. apply in_flat_map.
    exists i. split; [exact Hi |]. fold (document_font_sizes doc).
    rewrite Hacc. left. reflexivity. }
  set (h' := mkHeading (determine_heading_level h (document_candidates doc))
                       (text h) (page h) (font_size h) (font_flags h)).
  assert (Hh' : In h' (assign_levels (document_candidates doc))).
  { unfold assign_levels. apply in_map_iff. exists h. auto. }
  rewrite to_outline_texts. unfold unique_headings.
  destruct (unique_pass_covers
              (py_sorted key_lt (assign_levels (document_candidates doc))) [] h')
    as [[] | K]; [| exact K].
  apply (Permutation_in _ (Permutation_sym (py_sorted_perm key_lt _))). exact Hh'.
Qed.

Lemma accepted_lines_reach_outline_witness :
  In (mkTextInfo (py "Annual Report") (num 14) 20 1)
     (collect_text_info (mkDocument None [mkPage [mkBlock (Some [two_span_line])]])) /\
  In (py "Annual Report")
     (map item_text
        (outline (extract_outline
                    (mkDocument None [mkPage [mkBlock (Some [two_span_line])]])))).
Proof.
  assert (H : In (mkTextInfo (py "Annual Report") (num 14) 20 1)
                 (collect_text_info
                    (mkDocument None [mkPage [mkBlock (Some [two_span_line])]])))
    by (left; reflexivity).
  split; [exact H |].
  exact (accepted_lines_reach_outline _ _ H ltac:(vm_compute; reflexivity)).
Defined.

Lemma unique_pass_sorted (R : Heading -> Heading -> Prop) l : forall seen,
  StronglySorted R l -> StronglySorted R (unique_pass seen l).
Proof.
  induction l as [| a l IH]; intros seen H; simpl; [constructor |].
  inversion H as [| ? ? Hs Ha]; subst.
  destruct (existsb (str_eqb (text a)) seen); [apply IH, Hs |].
  constructor; [apply IH, Hs |].
  apply Forall_forall. intros b Hb. apply unique_pass_in in Hb as [Hb _].
  rewrite Forall_forall in Ha. apply Ha, Hb.
Qed.

Lemma StronglySorted_map {A B : Type} (R : A -> A -> Prop) (S : B -> B -> Prop)
    (f : A -> B) l :
  (forall a b, R a b -> S (f a) (f b)) ->
  StronglySorted R l -> StronglySorted S (map f l).
Proof.
  intros H. induction 1 as [| a l Hs IH Ha]; simpl; constructor; [exact IH |].
  apply Forall_forall. intros y Hy. apply in_map_iff in Hy as (b & <- & Hb).
  rewrite Forall_forall in Ha. apply H, Ha, Hb.
Qed.

(** X11.  The items of an outline come in the order of their pages. *)
Theorem outline_in_page_order :
  forall doc,
    StronglySorted (fun a b => item_page a <= item_page b)
                   (outline (extract_outline doc)).
Proof.
  intros doc. rewrite extract_outline_eq. unfold to_outline, unique_headings.
  apply (StronglySorted_map key_le).
  - intros a b [H | [H _]]; cbn [item_page]; lia.
  - apply unique_pass_sorted, sorted_headings_ordered, candidates_size_ok.
Qed.

(* ----------------------------------------------------------------- *)
(** ** Levels and sizes *)

Definition level_depth (lvl : str) : nat :=
  if str_eqb lvl (py "H1") then 1 else if str_eqb lvl (py "H2") then 2 else 3.

Lemma StronglySorted_nth {A : Type} (R : A -> A -> Prop) l :
  StronglySorted R l ->
  forall i j a b, i < j -> nth_error l i = Some a -> nth_error l j = Some b -> R a b.
Proof.
  induction 1 as [| x l Hs IH Hx]; intros i j a b L Hi Hj.
  - destruct i; discriminate Hi.
  - destruct j as [| j]; [lia |]. simpl in Hj. destruct i as [| i].
    + injection Hi as <-. rewrite Forall_forall in Hx.
      apply Hx. eapply nth_error_In; eauto.
    + simpl in Hi. apply (IH i j); auto. lia.
Qed.

(** X12.  A heading of a larger font never gets a deeper level than a heading of
    a smaller font, and headings of equal font sizes get the same level. *)
Theorem larger_font_shallower_level :
  forall all_headings h1 h2,
    Forall size_ok all_headings ->
    In h1 all_headings -> In h2 all_headings ->
    (py_lt (font_size h2) (font_size h1) = true ->
     level_depth (determine_heading_level h1 all_headings)
     <= level_depth (determine_heading_level h2 all_headings)) /\
    (py_eq (font_size h1) (font_size h2) = true ->
     determine_heading_level h1 all_headings = determine_heading_level h2 all_headings).
Proof.
  intros hs h1 h2 Hok H1 H2.
  destruct (unique_sizes_spec hs Hok) as (Hnan & Hnd & Hsorted & _ & Hcomplete).
  assert (Hlevel : forall h i u,
             nth_error (unique_sizes hs) i = Some u ->
             py_eq u (font_size h) = true ->
             determine_heading_level h hs
             = match i with 0 => py "H1" | 1 => py "H2" | _ => py "H3" end).
  { intros h i u Hi E. rewrite determine_heading_level_eq.
    apply (size_to_level_at _ i u); assumption. }
  destruct (Hcomplete h1 H1) as (u1 & Hu1 & E1).
  destruct (Hcomplete h2 H2) as (u2 & Hu2 & E2).
  apply In_nth_error in Hu1 as (i1 & N1). apply In_nth_error in Hu2 as (i2 & N2).
  split.
  - intros L. rewrite (Hlevel h1 i1 u1 N1 E1), (Hlevel h2 i2 u2 N2 E2).
    assert (Hlt : i1 < i2).
    { destruct (py_eq_not_nan _ _ E1) as [Hu1 Hs1], (py_eq_not_nan _ _ E2) as [Hu2 Hs2].
      apply py_eq_rank in E1, E2; auto. apply py_lt_rank in L; auto.
      rewrite <- E1, <- E2 in L.
      destruct (Nat.lt_total i1 i2) as [K | [K | K]]; [exact K | |]; exfalso.
      - subst i2. rewrite N1 in N2. injection N2 as <-. apply (lex_lt_irrefl _ L).
      - pose proof (StronglySorted_nth _ _ Hsorted i2 i1 u2 u1 K N2 N1) as G.
        cbv beta in G. apply py_lt_rank in G; auto.
        apply (lex_lt_irrefl _ (lex_lt_trans _ _ _ L G)). }
    destruct i1 as [| [| i1]], i2 as [| [| i2]]; try lia; vm_compute; lia.
  - intros Q. rewrite (Hlevel h1 i1 u1 N1 E1).
    symmetry. apply (Hlevel h2 i1 u1 N1). apply (py_eq_trans _ _ _ E1 Q).
Qed.

Lemma larger_font_shallower_level_witness :
  Forall size_ok sample_headings /\
  level_depth (determine_heading_level
                 (mkHeading [] (py "Report") 1 (num 18) 16) sample_headings)
  <= level_depth (determine_heading_level
                    (mkHeading [] (py "Notes") 2 (num 10) 0) sample_headings).
Proof.
  assert (H : Forall size_ok sample_headings) by (repeat constructor).
  split; [exact H |].
  apply (proj1 (larger_font_shallower_level sample_headings
                  (mkHeading [] (py "Report") 1 (num 18) 16)
                  (mkHeading [] (py "Notes") 2 (num 10) 0) H
                  ltac:(simpl; tauto) ltac:(simpl; tauto))).
  reflexivity.
Defined.

(* ----------------------------------------------------------------- *)
(** ** The shape of the title *)

(** The scan of the first page either leaves its state alone or holds the
    trimmed text and the size of a span larger than the size it started
    from. *)
Lemma title_scan_result ss : forall t m,
  fold_left title_scan_span ss (t, m) = (t, m) \/
  exists s, In s ss /\ py_gt (span_size s) m = true /\
            fold_left title_scan_span ss (t, m) = (strip (span_text s), span_size s).
Proof.
  induction ss as [| s ss IH]; intros t m; [left; reflexivity |].
  cbn [fold_left]. unfold title_scan_span at 2 4. cbn [snd].
  destruct (py_gt (span_size s) m) eqn:G.
  - right. destruct (IH (strip (span_text s)) (span_size s)) as [E | (s' & Hs' & G' & E)].
    + exists s. split; [left; reflexivity |]. split; [exact G | exact E].
    + exists s'. split; [right; exact Hs' |]. split; [| exact E].
      unfold py_gt in *. apply (py_lt_trans _ _ _ G G').
  - destruct (IH t m) as [E | (s' & Hs' & G' & E)]; [left; exact E |].
    right. exists s'. split; [right; exact Hs' |]. split; assumption.
Qed.

(** X13.  A title never starts or ends with white space. *)
Theorem title_is_trimmed :
  forall doc, strip (extract_title_from_document doc) = extract_title_from_document doc.
Proof.
  intros doc. unfold extract_title_from_document.
  assert (K : match pages doc with
              | first_page :: _ =>
                  let largest_text :=
                    fst (fold_left title_scan_block (blocks first_page) ([], num 0)) in
                  strip (if negb (str_eqb largest_text []) && (3 <? List.length largest_text)
                         then largest_text else untitled)
                  = (if negb (str_eqb largest_text []) && (3 <? List.length largest_text)
                     then largest_text else untitled)
              | [] => strip untitled = untitled
              end).
  { destruct (pages doc) as [| p rest]; [reflexivity |]. cbv zeta.
    rewrite title_scan_blocks.
    pose proof (title_scan_result (flat_map spans (flat_map block_lines (blocks p)))
                  [] (num 0)) as R.
    set (st := fold_left title_scan_span _ _) in *.
    destruct R as [R | (s & _ & _ & R)]; rewrite R; cbn [fst].
    - reflexivity.
    - destruct (negb (str_eqb (strip (span_text s)) [])
                && (3 <? List.length (strip (span_text s))));
        [apply strip_idempotent | reflexivity]. }
  destruct (metadata_title doc) as [[| c t] |].
  - destruct (pages doc); exact K.
  - apply strip_idempotent.
  - destruct (pages doc); exact K.
Qed.

(** X14.  Without a metadata title, the title is ["Untitled Document"] or the
    trimmed text, longer than 3 characters, of a span of the first page
    whose size is above 0. *)
Theorem title_from_first_page :
  forall doc,
    metadata_title doc = None \/ metadata_title doc = Some [] ->
    extract_title_from_document doc = untitled \/
    exists first_page rest s,
      pages doc = first_page :: rest /\
      In s (page_spans first_page) /\
      py_gt (span_size s) (num 0) = true /\
      extract_title_from_document doc = strip (span_text s) /\
      3 < List.length (strip (span_text s)).
Proof.
  intros doc Hmeta.
  assert (E : extract_title_from_document doc =
              match pages doc with
              | first_page :: _ =>
                  let largest_text :=
                    fst (fold_left title_scan_span (page_spans first_page) ([], num 0)) in
                  if negb (str_eqb largest_text []) && (3 <? List.length largest_text)
                  then largest_text else untitled
              | [] => untitled
              end).
  { unfold extract_title_from_document.
    destruct Hmeta as [-> | ->]; destruct (pages doc); try reflexivity;
      rewrite title_scan_blocks; reflexivity. }
  rewrite E. destruct (pages doc) as [| p rest]; [left; reflexivity |]. cbv zeta.
  pose proof (title_scan_result (page_spans p) [] (num 0)) as R.
  set (st := fold_left title_scan_span _ _) in *.
  destruct R as [R | (s & Hs & G & R)]; rewrite R; cbn [fst]; [left; reflexivity |].
  destruct (3 <? List.length (strip (span_text s))) eqn:L;
    [| rewrite andb_false_r; left; reflexivity].
  destruct (negb (str_eqb (strip (span_text s)) [])); [| left; reflexivity].
  right. exists p, rest, s. cbn [andb]. apply Nat.ltb_lt in L. auto.
Qed.

Definition cover_page : Page :=
  mkPage [mkBlock (Some [mkLine [mkSpan (py "v2") (num 30) 0];
                         mkLine [mkSpan (py " Field Guide ") (num 22) 16]])].

(** The largest span of the page is too short for a title: the title is
    the default, not the text of the next largest span. *)
Lemma title_from_first_page_witness :
  metadata_title (mkDocument None [cover_page]) = None /\
  extract_title_from_document (mkDocument None [cover_page]) = untitled /\
  (extract_title_from_document (mkDocument None [cover_page]) = untitled \/
   exists first_page rest s,
     pages (mkDocument None [cover_page]) = first_page :: rest /\
     In s (page_spans first_page) /\
     py_gt (span_size s) (num 0) = true /\
     extract_title_from_document (mkDocument None [cover_page]) = strip (span_text s) /\
     3 < List.length (strip (span_text s))).
Proof.
  split; [reflexivity |]. split; [reflexivity |].
  exact (title_from_first_page (mkDocument None [cover_page]) (or_introl eq_refl)).
Defined.

(* ----------------------------------------------------------------- *)
(** ** The batch run *)

(** What one file of the listing adds to the files written. *)
Definition file_output (open_pdf : str -> option FitzDocument)
    (can_write : str -> bool) (filename : str) : list (str * Outline) :=
  process_file open_pdf can_write [] filename.

Lemma process_file_appends open_pdf can_write written filename :
  process_file open_pdf can_write written filename
  = written ++ file_output open_pdf can_write filename.
Proof.
  unfold file_output, process_file.
  destruct (endswith (py_lower filename) (py ".pdf")); [| rewrite app_nil_r; reflexivity].
  destruct (extract_outline_path open_pdf (path_join input_dir filename));
    [| rewrite app_nil_r; reflexivity].
  cbv zeta. destruct (can_write _); [reflexivity | rewrite app_nil_r; reflexivity].
Qed.

Lemma fold_process_file open_pdf can_write listdir : forall written,
  fold_left (process_file open_pdf can_write) listdir written
  = written ++ flat_map (file_output open_pdf can_write) listdir.
Proof.
  induction listdir as [| f l IH]; intros written; simpl.
  - rewrite app_nil_r. reflexivity.
  - rewrite IH, process_file_appends, <- app_assoc. reflexivity.
Qed.

Lemma main_flat_map listdir open_pdf can_write :
  main listdir open_pdf can_write = flat_map (file_output open_pdf can_write) listdir.
Proof. unfold main. rewrite fold_process_file. reflexivity. Qed.

Lemma extract_outline_path_some open_pdf pdf_path result :
  extract_outline_path open_pdf pdf_path = Some result <->
  exists doc, open_pdf pdf_path = Some (Readable doc) /\ result = extract_outline doc.
Proof.
  unfold extract_outline_path. destruct (open_pdf pdf_path) as [[| doc] |]; split.
  - discriminate.
  - intros (d & E & _). discriminate E.
  - intros E. injection E as <-. exists doc. auto.
  - intros (d & E & ->). injection E as ->. reflexivity.
  - discriminate.
  - intros (d & E & _). discriminate E.
Qed.

(** X15.  A file is written for exactly the entries of the listing whose
    name ends in [.pdf] in any letter case, whose document opens and is not
    locked, and whose output path can be opened for writing: it holds the
    outline of that document, under the name of the entry with every [.pdf]
    replaced by [.json], in the output directory. *)
Theorem main_writes :
  forall listdir open_pdf can_write path result,
    In (path, result) (main listdir open_pdf can_write) <->
    exists filename doc,
      In filename listdir /\
      endswith (py_lower filename) (py ".pdf") = true /\
      open_pdf (path_join input_dir filename) = Some (Readable doc) /\
      path = path_join output_dir (str_replace filename (py ".pdf") (py ".json")) /\
      can_write path = true /\
      result = extract_outline doc.
Proof.
  intros listdir open_pdf can_write path result.
  rewrite main_flat_map, in_flat_map. split.
  - intros (f & Hf & H). unfold file_output, process_file in H.
    destruct (endswith (py_lower f) (py ".pdf")) eqn:E; [| contradiction].
    destruct (extract_outline_path open_pdf (path_join input_dir f)) as [r |] eqn:O;
      [| contradiction].
    cbv zeta in H.
    destruct (can_write (path_join output_dir
                           (str_replace f (py ".pdf") (py ".json")))) eqn:W;
      [| contradiction].
    destruct H as [H | []]. injection H as <- <-.
    apply extract_outline_path_some in O as (doc & O & ->).
    exists f, doc. auto 7.
  - intros (f & doc & Hf & E & O & -> & W & ->). exists f. split; [exact Hf |].
    unfold file_output, process_file. rewrite E.
    rewrite (proj2 (extract_outline_path_some open_pdf _ (extract_outline doc)))
      by eauto.
    cbv zeta. rewrite W. left. reflexivity.
Qed.

(** X16.  The files are written in the order of the listing: the run over two
    listings put end to end writes what both runs write, one after the
    other. *)
Theorem main_in_listing_order :
  forall first_part second_part open_pdf can_write,
    main (first_part ++ second_part) open_pdf can_write
    = main first_part open_pdf can_write ++ main second_part open_pdf can_write.
Proof.
  intros l1 l2 open_pdf can_write. rewrite !main_flat_map. apply flat_map_app.
Qed.

(** X17.  An entry that is no PDF by its name, or that cannot be opened, or
    that opens as a locked document, or whose output file cannot be opened
    for writing, is passed over: the run writes what it writes without that
    entry. *)
Theorem main_skips_entry :
  forall before filename after open_pdf can_write,
    endswith (py_lower filename) (py ".pdf") = false \/
    open_pdf (path_join input_dir filename) = None \/
    open_pdf (path_join input_dir filename) = Some Locked \/
    can_write (path_join output_dir (str_replace filename (py ".pdf") (py ".json")))
    = false ->
    main (before ++ filename :: after) open_pdf can_write
    = main (before ++ after) open_pdf can_write.
Proof.
  intros before f after open_pdf can_write H.
  rewrite !main_flat_map, !flat_map_app. cbn [flat_map].
  replace (file_output open_pdf can_write f) with (@nil (str * Outline));
    [reflexivity |].
  unfold file_output, process_file, extract_outline_path.
  destruct (endswith (py_lower f) (py ".pdf")); [| reflexivity].
  destruct H as [H | [H | [H | H]]]; [discriminate H | | |].
  - rewrite H. reflexivity.
  - rewrite H. reflexivity.
  - destruct (open_pdf (path_join input_dir f)) as [[| doc] |]; try reflexivity.
    cbv zeta. rewrite H. reflexivity.
Qed.

Definition one_page_report : Document :=
  mkDocument (Some (py "Report")) [mkPage [mkBlock (Some [two_span_line])]].

(** [b.pdf] is a readable report, [c.pdf] is locked, and nothing else
    opens. *)
Definition sample_open (path : str) : option FitzDocument :=
  if str_eqb path (py "/app/input/b.pdf") then Some (Readable one_page_report)
  else if str_eqb path (py "/app/input/c.pdf") then Some Locked
  else None.

Lemma main_skips_entry_witness :
  sample_open (path_join input_dir (py "c.pdf")) = Some Locked /\
  main [py "notes.txt"; py "a.pdf"; py "c.pdf"; py "b.pdf"] sample_open (fun _ => true)
  = [(py "/app/output/b.json", extract_outline one_page_report)].
Proof.
  split; [reflexivity |].
  exact (eq_trans (main_skips_entry [py "notes.txt"; py "a.pdf"] (py "c.pdf")
                     [py "b.pdf"] sample_open (fun _ => true)
                     (or_intror (or_intror (or_introl eq_refl))))
                  eq_refl).
Defined.

(* ----------------------------------------------------------------- *)
(** ** The name of the output file *)

Lemma replace_from_skip old new pre : forall s,
  replace_from old new (List.length pre) (pre ++ s) = replace_from old new 0 s.
Proof.
  induction pre as [| c pre IH]; intros s; [reflexivity |].
  cbn [List.length app replace_from]. apply IH.
Qed.

Lemma replace_absent old new s :
  contains s old = false -> str_replace s old new = s.
Proof.
  unfold str_replace. induction s as [| c s IH]; intros H; [reflexivity |].
  cbn [contains] in H. apply orb_false_iff in H as [H1 H2].
  cbn [replace_from]. rewrite H1, (IH H2). reflexivity.
Qed.

Lemma startswith_before_suffix c stem :
  startswith (c :: stem) (py ".pdf") = false ->
  startswith ((c :: stem) ++ py ".pdf") (py ".pdf") = false.
Proof.
  unfold py. cbn [list_ascii_of_string].
  destruct stem as [| c2 [| c3 [| c4 stem]]]; cbn [startswith app];
    intros H;
    repeat match goal with
           | |- context [Ascii.eqb ?a ?b] =>
               destruct (Ascii.eqb_spec a b); subst; cbn [andb]
           | H : context [Ascii.eqb ?a ?b] |- _ =>
               destruct (Ascii.eqb_spec a b); subst; cbn [andb] in H
           end;
    try reflexivity; try discriminate; try congruence.
  destruct stem; discriminate H.
Qed.

(** X18.  A name made of a stem without [.pdf] inside and of the suffix [.pdf]
    gives the stem with the suffix [.json]. *)
Theorem pdf_suffix_becomes_json :
  forall stem,
    contains stem (py ".pdf") = false ->
    str_replace (stem ++ py ".pdf") (py ".pdf") (py ".json") = stem ++ py ".json".
Proof.
  unfold str_replace. induction stem as [| c stem IH]; intros H; [reflexivity |].
  pose proof H as H'. cbn [contains] in H'. apply orb_false_iff in H' as [H1 H2].
  change ((c :: stem) ++ py ".pdf") with (c :: (stem ++ py ".pdf")).
  cbn [replace_from].
  change (c :: (stem ++ py ".pdf")) with ((c :: stem) ++ py ".pdf").
  rewrite (startswith_before_suffix c stem H1), (IH H2). reflexivity.
Qed.

Lemma pdf_suffix_becomes_json_witness :
  contains (py "annual.report") (py ".pdf") = false /\
  str_replace (py "annual.report.pdf") (py ".pdf") (py ".json")
  = py "annual.report.json".
Proof.
  split; [reflexivity |].
  exact (pdf_suffix_becomes_json (py "annual.report") eq_refl).
Defined.

(** X19.  The test of the suffix ignores the letter case and the
    replacement does not: an entry whose name passes the test but has no
    lower-case [.pdf] inside, whose document is readable and whose output
    file can be opened, is written under its own name. *)
Theorem other_case_suffix_keeps_name :
  forall open_pdf can_write written filename doc,
    endswith (py_lower filename) (py ".pdf") = true ->
    contains filename (py ".pdf") = false ->
    open_pdf (path_join input_dir filename) = Some (Readable doc) ->
    can_write (path_join output_dir filename) = true ->
    process_file open_pdf can_write written filename
    = written ++ [(path_join output_dir filename, extract_outline doc)].
Proof.
  intros open_pdf can_write written f doc E C O W.
  unfold process_file, extract_outline_path.
  rewrite E, O, (replace_absent _ _ _ C). cbv zeta. rewrite W. reflexivity.
Qed.

Lemma other_case_suffix_keeps_name_witness :
  endswith (py_lower (py "REPORT.PDF")) (py ".pdf") = true /\
  contains (py "REPORT.PDF") (py ".pdf") = false /\
  main [py "REPORT.PDF"] (fun _ => Some (Readable one_page_report)) (fun _ => true)
  = [(py "/app/output/REPORT.PDF", extract_outline one_page_report)].
Proof.
  split; [reflexivity |]. split; [reflexivity |].
  exact (other_case_suffix_keeps_name (fun _ => Some (Readable one_page_report))
           (fun _ => true) [] (py "REPORT.PDF") one_page_report
           eq_refl eq_refl eq_refl eq_refl).
Defined.
